(** * Neon Snake: the tick engine, the direction buffer and the score ledger

    A shallow embedding of the game logic of [App.tsx] (the React component
    [App]: [isAtCoordinate], [generateFood], [startGame], [pauseGame],
    [handleDirectionChange] and the game-loop callback handed to
    [useInterval]) together with [constants.ts].

    Conventions of the embedding.
    - JavaScript numbers that hold grid coordinates, scores and intervals are
      integers far below 2^53, where double arithmetic is exact: they are [Z].
    - The component's React state is the pair of [gameState] and
      [nextDirection]; the two ambient effects of the callbacks are threaded
      explicitly: the calls made to [localStorage.setItem] (a trace, oldest
      call first) and the position in the sequence of [Math.random] draws.
    - [Math.floor(Math.random() * GRID_SIZE)] is read from a sequence of
      integer draws [random : nat -> Z], a parameter of the operations.
    - [generateFood] is a [while (true)] loop: it is run with fuel, and
      [None] means that the fuel given did not suffice. *)

From Stdlib Require Import ZArith List Bool Lia String DecimalString.
Import ListNotations.
Open Scope Z_scope.

(** ** constants.ts *)

Definition GRID_SIZE : Z := 20.
Definition INITIAL_SPEED : Z := 150.
Definition MIN_SPEED : Z := 60.
Definition SPEED_DECREMENT : Z := 2.

(** ** types.ts *)

(** Modelled from the spec: [types.ts] is not among the sources; the
    [Direction] enum is the spec's Heading, one of UP, DOWN, LEFT, RIGHT,
    which are also the four members the component uses. *)
Inductive Direction : Type := UP | DOWN | LEFT | RIGHT.

(** Modelled from the spec: [types.ts] is not among the sources; the
    [GameStatus] enum has the four states of the spec's state machine, which
    are also the four members the component uses. *)
Inductive GameStatus : Type := IDLE | PLAYING | PAUSED | GAME_OVER.

(** The literal type ['WALL' | 'SELF'] of [deathReason] (as spelled in the
    signature of [getGameCommentary]); [null] is [None]. *)
Inductive DeathReason : Type := WALL | SELF.

(** Modelled from the spec: [types.ts] is not among the sources; a
    [Coordinate] is the object [{ x, y }] the component builds and reads. *)
Record Coordinate : Type := mkCoordinate { x : Z; y : Z }.

(** Modelled from the spec: [types.ts] is not among the sources; the fields
    are those of the object literal [INITIAL_STATE]. *)
Record GameState : Type := mkGameState {
  snake : list Coordinate;
  food : Coordinate;
  direction : Direction;
  score : Z;
  highScore : Z;
  status : GameStatus;
  speed : Z;
  deathReason : option DeathReason
}.

Definition Direction_eqb (a b : Direction) : bool :=
  match a, b with
  | UP, UP | DOWN, DOWN | LEFT, LEFT | RIGHT, RIGHT => true
  | _, _ => false
  end.

Definition GameStatus_eqb (a b : GameStatus) : bool :=
  match a, b with
  | IDLE, IDLE | PLAYING, PLAYING | PAUSED, PAUSED | GAME_OVER, GAME_OVER => true
  | _, _ => false
  end.

(** [a.x === b.x && a.y === b.y] *)
Definition Coordinate_eqb (a b : Coordinate) : bool :=
  (x a =? x b) && (y a =? y b).

(** ** The ambient effects *)

(** One call [localStorage.setItem(key, value)]. *)
Definition StorageCall : Type := (string * string)%type.

(** The state of the component and of its environment. [storageCalls] lists
    the calls to [localStorage.setItem] made so far, oldest first;
    [randomPos] counts the calls to [Math.random] made so far. *)
Record App : Type := mkApp {
  gameState : GameState;
  nextDirection : Direction;
  storageCalls : list StorageCall;
  randomPos : nat
}.

(** [n.toString()] of an integer-valued number. *)
Definition toString (n : Z) : string := NilZero.string_of_int (Z.to_int n).

(** [localStorage.getItem(key)] after the calls [calls], over the initial
    content [init] of the storage: the value of the latest [setItem] for
    [key], if any. *)
Fixpoint getItem (init : string -> option string) (calls : list StorageCall)
    (key : string) : option string :=
  match calls with
  | [] => init key
  | (k, v) :: rest =>
      getItem (fun k' => if String.eqb k' k then Some v else init k') rest key
  end.

(** ** App.tsx: the pure helpers *)

Definition INITIAL_SNAKE : list Coordinate :=
  [ mkCoordinate 10 10; mkCoordinate 10 11; mkCoordinate 10 12 ].

Definition INITIAL_STATE : GameState :=
  {| snake := INITIAL_SNAKE;
     food := mkCoordinate 5 5;
     direction := UP;
     score := 0;
     highScore := 0;
     status := IDLE;
     speed := INITIAL_SPEED;
     deathReason := None |}.

(** [arr.some(seg => seg.x === coord.x && seg.y === coord.y)] *)
Definition isAtCoordinate (coord : Coordinate) (arr : list Coordinate) : bool :=
  existsb (fun seg => Coordinate_eqb seg coord) arr.

(** The object spreads [{ ...prev, status: s, deathReason: r }]. *)
Definition withDeath (prev : GameState) (r : DeathReason) : GameState :=
  {| snake := snake prev; food := food prev; direction := direction prev;
     score := score prev; highScore := highScore prev;
     status := GAME_OVER; speed := speed prev; deathReason := Some r |}.

(** [{ ...prev, status: s }] *)
Definition withStatus (prev : GameState) (s : GameStatus) : GameState :=
  {| snake := snake prev; food := food prev; direction := direction prev;
     score := score prev; highScore := highScore prev;
     status := s; speed := speed prev; deathReason := deathReason prev |}.

(** The [switch (currentDir)] of the game loop, applied to a copy of the
    head. *)
Definition stepHead (head : Coordinate) (currentDir : Direction) : Coordinate :=
  match currentDir with
  | UP => {| x := x head; y := y head - 1 |}
  | DOWN => {| x := x head; y := y head + 1 |}
  | LEFT => {| x := x head - 1; y := y head |}
  | RIGHT => {| x := x head + 1; y := y head |}
  end.

(** The condition of the wall test of the game loop. *)
Definition hitsWall (newHead : Coordinate) : bool :=
  (x newHead <? 0) || (x newHead >=? GRID_SIZE) ||
  (y newHead <? 0) || (y newHead >=? GRID_SIZE).

(** The condition of [isOpposite] in [handleDirectionChange]. *)
Definition isOpposite (newDir current : Direction) : bool :=
  (Direction_eqb newDir UP && Direction_eqb current DOWN) ||
  (Direction_eqb newDir DOWN && Direction_eqb current UP) ||
  (Direction_eqb newDir LEFT && Direction_eqb current RIGHT) ||
  (Direction_eqb newDir RIGHT && Direction_eqb current LEFT).

(** [setGameState(gs)]: replaces the game state and leaves the rest of the
    component and of its environment alone. *)
Definition setGameState (app : App) (gs : GameState) : App :=
  {| gameState := gs; nextDirection := nextDirection app;
     storageCalls := storageCalls app; randomPos := randomPos app |}.

(** ** App.tsx: the effectful operations *)

Section WithRandom.

(** [random n] is the value of [Math.floor(Math.random() * GRID_SIZE)] at
    the [n]-th call of [Math.random] (counted from 0). *)
Variable random : nat -> Z.

(** [generateFood]: each round of the loop draws [x], then [y], and leaves
    the loop when the cell is not on the snake. Returns the food and the new
    position in the sequence of draws. *)
Fixpoint generateFood (fuel : nat) (pos : nat) (snake : list Coordinate)
    : option (Coordinate * nat) :=
  match fuel with
  | O => None
  | S fuel' =>
      let newFood := {| x := random pos; y := random (S pos) |} in
      if negb (isAtCoordinate newFood snake)
      then Some (newFood, S (S pos))
      else generateFood fuel' (S (S pos)) snake
  end.

(** [startGame] *)
Definition startGame (fuel : nat) (app : App) : option App :=
  match generateFood fuel (randomPos app) INITIAL_SNAKE with
  | None => None
  | Some (newFood, pos') =>
      Some {| gameState :=
                {| snake := INITIAL_SNAKE;
                   food := newFood;
                   direction := UP;
                   score := 0;
                   highScore := highScore (gameState app);
                   status := PLAYING;
                   speed := INITIAL_SPEED;
                   deathReason := None |};
              nextDirection := UP;
              storageCalls := storageCalls app;
              randomPos := pos' |}
  end.

(** [pauseGame] *)
Definition pauseGame (app : App) : App :=
  let gs := gameState app in
  if GameStatus_eqb (status gs) PLAYING then
    setGameState app (withStatus gs PAUSED)
  else if GameStatus_eqb (status gs) PAUSED then
    setGameState app (withStatus gs PLAYING)
  else app.

(** [handleDirectionChange]: the updater returns [current] on both paths;
    only [setNextDirection] changes the state. *)
Definition handleDirectionChange (newDir : Direction) (app : App) : App :=
  let current := gameState app in
  if isOpposite newDir (direction current) then app
  else {| gameState := current; nextDirection := newDir;
          storageCalls := storageCalls app; randomPos := randomPos app |}.

(** The game loop: the callback of [useInterval], that is the updater
    passed to [setGameState], with [nextDirection] read from the component
    state. *)
Definition tick (fuel : nat) (app : App) : option App :=
  let prev := gameState app in
  let commit (gs : GameState) := Some (setGameState app gs) in
  if negb (GameStatus_eqb (status prev) PLAYING) then Some app
  else
    let currentDir := nextDirection app in
    match snake prev with
    | [] =>
        (* [prev.snake[0]] is [undefined]: the copy [newHead] has no [x] or
           [y], the [switch] makes one of them [NaN], and every comparison of
           the wall and food checks is false; [isAtCoordinate] over the empty
           array is false; the only element of [newSnake] is popped. *)
        commit {| snake := []; food := food prev; direction := currentDir;
                  score := score prev; highScore := highScore prev;
                  status := status prev; speed := speed prev;
                  deathReason := deathReason prev |}
    | head :: _ =>
        let newHead := stepHead head currentDir in
        if hitsWall newHead then commit (withDeath prev WALL)
        else
          let tail := last (snake prev) head in
          if isAtCoordinate newHead (snake prev)
             && (negb (x newHead =? x tail) || negb (y newHead =? y tail))
          then commit (withDeath prev SELF)
          else
            let newSnake := newHead :: snake prev in
            if (x newHead =? x (food prev)) && (y newHead =? y (food prev))
            then
              (* Ate food: the tail is not popped. *)
              let newScore := score prev + 1 in
              match generateFood fuel (randomPos app) newSnake with
              | None => None
              | Some (newFood, pos') =>
                  let newSpeed := Z.max MIN_SPEED (speed prev - SPEED_DECREMENT) in
                  let raised := newScore >? highScore prev in
                  Some {| gameState :=
                            {| snake := newSnake;
                               food := newFood;
                               direction := currentDir;
                               score := newScore;
                               highScore :=
                                 if raised then newScore else highScore prev;
                               status := status prev;
                               speed := newSpeed;
                               deathReason := deathReason prev |};
                          nextDirection := nextDirection app;
                          storageCalls :=
                            if raised
                            then storageCalls app
                                   ++ [("snake-highscore"%string, toString newScore)]
                            else storageCalls app;
                          randomPos := pos' |}
              end
            else
              (* Did not eat: the tail is popped, then the post-pop check. *)
              let newSnake' := removelast newSnake in
              let isSelfCollision :=
                existsb (fun seg => (x seg =? x newHead) && (y seg =? y newHead))
                        (List.tl newSnake') in
              if isSelfCollision then commit (withDeath prev SELF)
              else
                commit {| snake := newSnake'; food := food prev;
                          direction := currentDir;
                          score := score prev; highScore := highScore prev;
                          status := status prev; speed := speed prev;
                          deathReason := deathReason prev |}
    end.

End WithRandom.

(** ** The component as a transition system *)

(** The initial value of the component state: [INITIAL_STATE] with the high
    score read from the storage. [parsed] is [Some n] when the stored item
    is a non-empty string and [parseInt] of it is [n], and [None] when the
    item is absent or empty. *)
Definition initialApp (parsed : option Z) : App :=
  {| gameState :=
       {| snake := INITIAL_SNAKE;
          food := food INITIAL_STATE;
          direction := direction INITIAL_STATE;
          score := score INITIAL_STATE;
          highScore := match parsed with Some n => n | None => 0 end;
          status := status INITIAL_STATE;
          speed := speed INITIAL_STATE;
          deathReason := deathReason INITIAL_STATE |};
     nextDirection := UP;
     storageCalls := [];
     randomPos := 0%nat |}.

(** The events the component reacts to. *)
Inductive Op : Type :=
  | OpTick
  | OpStartGame
  | OpPauseGame
  | OpDirectionChange (newDir : Direction).

Definition runOp (random : nat -> Z) (fuel : nat) (op : Op) (app : App)
    : option App :=
  match op with
  | OpTick => tick random fuel app
  | OpStartGame => startGame random fuel app
  | OpPauseGame => Some (pauseGame app)
  | OpDirectionChange newDir => Some (handleDirectionChange newDir app)
  end.

(** A run: the events of [ops], each with the fuel granted to it, one after
    the other; [None] as soon as one of them lacks fuel. *)
Fixpoint runOps (random : nat -> Z) (ops : list (nat * Op)) (app : App)
    : option App :=
  match ops with
  | [] => Some app
  | (fuel, op) :: ops' =>
      match runOp random fuel op app with
      | None => None
      | Some app' => runOps random ops' app'
      end
  end.

(** The states of the component in the runs that start with a stored high
    score that is absent or not negative. *)
Inductive reachable (random : nat -> Z) : App -> Prop :=
  | reachable_init : forall parsed,
      (forall n, parsed = Some n -> 0 <= n) ->
      reachable random (initialApp parsed)
  | reachable_step : forall app fuel op app',
      reachable random app ->
      runOp random fuel op app = Some app' ->
      reachable random app'.

(** ** The vocabulary of the specification *)

(** A cell of the grid: both coordinates in [[0, GRID_SIZE)]. *)
Definition inGrid (c : Coordinate) : Prop :=
  0 <= x c < GRID_SIZE /\ 0 <= y c < GRID_SIZE.

(** The heading that reverses [h] along its axis. *)
Definition opposite (h : Direction) : Direction :=
  match h with
  | UP => DOWN
  | DOWN => UP
  | LEFT => RIGHT
  | RIGHT => LEFT
  end.

(** The cell the head moves to at the next tick, when there is a head. *)
Definition newHeadOf (app : App) : option Coordinate :=
  match snake (gameState app) with
  | [] => None
  | head :: _ => Some (stepHead head (nextDirection app))
  end.

(** The cell of the last segment of the body, when there is one. *)
Definition tailOf (app : App) : option Coordinate :=
  match snake (gameState app) with
  | [] => None
  | head :: rest => Some (last (head :: rest) head)
  end.

(** The [k]-th cell drawn by [generateFood] when it starts at position
    [pos] of the sequence of draws. *)
Definition drawnCell (random : nat -> Z) (pos k : nat) : Coordinate :=
  {| x := random (pos + 2 * k)%nat; y := random (S (pos + 2 * k))%nat |}.

(** The invariant of the states the component reaches: the body is not
    empty, lies on the grid and does not overlap itself (the data model of
    the specification), the food is not under the body, and the score is not
    negative and not above the high score. *)
Record wellFormed (gs : GameState) : Prop := mkWellFormed {
  wf_nonempty : snake gs <> [];
  wf_inGrid : Forall inGrid (snake gs);
  wf_NoDup : NoDup (snake gs);
  wf_food : ~ In (food gs) (snake gs);
  wf_score : 0 <= score gs <= highScore gs
}.

(** ** Concrete games *)

(** A game in progress at the initial speed, with no death recorded. *)
Definition playing (body : list Coordinate) (f : Coordinate)
    (heading pending : Direction) (sc hs : Z) : App :=
  {| gameState :=
       {| snake := body; food := f; direction := heading;
          score := sc; highScore := hs; status := PLAYING;
          speed := INITIAL_SPEED; deathReason := None |};
     nextDirection := pending;
     storageCalls := [];
     randomPos := 0%nat |}.

(** A sequence of draws that always gives the same number. *)
Definition constantDraws (n : Z) : nat -> Z := fun _ => n.

(** The initial snake heading up, nothing ahead of it. *)
Definition straightGame : App :=
  playing INITIAL_SNAKE (mkCoordinate 5 5) UP UP 0 0.

(** The initial snake heading up, food on the cell ahead of it. *)
Definition feedingGame : App :=
  playing INITIAL_SNAKE (mkCoordinate 10 9) UP UP 0 0.

(** A snake along the left column's neighbour cells with its head on the
    left edge, heading left. *)
Definition edgeGame : App :=
  playing [mkCoordinate 0 5; mkCoordinate 1 5; mkCoordinate 2 5]
          (mkCoordinate 7 7) LEFT LEFT 0 0.

(** A snake coiled in a square whose head is about to enter the cell of its
    tail, food elsewhere. *)
Definition chasingGame : App :=
  playing [mkCoordinate 5 5; mkCoordinate 6 5; mkCoordinate 6 6; mkCoordinate 5 6]
          (mkCoordinate 0 0) LEFT DOWN 0 0.


(** A snake of five segments that turns down into its fourth segment. *)
Definition bitingGame : App :=
  playing [mkCoordinate 5 5; mkCoordinate 4 5; mkCoordinate 4 6;
           mkCoordinate 5 6; mkCoordinate 6 6]
          (mkCoordinate 0 0) RIGHT DOWN 0 0.

(** ** App.tsx: the keyboard handler and the header *)

(** [handleKeyDown], the listener of [keydown] events, on [e.key]: the
    [switch] over the arrow keys, the letters and the space bar; any other
    key falls through the [switch]. *)
Definition handleKeyDown (random : nat -> Z) (fuel : nat) (key : string)
    (app : App) : option App :=
  let pressed (k : string) := String.eqb key k in
  if pressed "ArrowUp"%string || pressed "w"%string || pressed "W"%string then
    Some (handleDirectionChange UP app)
  else if pressed "ArrowDown"%string || pressed "s"%string || pressed "S"%string then
    Some (handleDirectionChange DOWN app)
  else if pressed "ArrowLeft"%string || pressed "a"%string || pressed "A"%string then
    Some (handleDirectionChange LEFT app)
  else if pressed "ArrowRight"%string || pressed "d"%string || pressed "D"%string then
    Some (handleDirectionChange RIGHT app)
  else if pressed " "%string then
    if GameStatus_eqb (status (gameState app)) GAME_OVER
       || GameStatus_eqb (status (gameState app)) IDLE
    then startGame random fuel app
    else Some (pauseGame app)
  else Some app.

(** The number shown after "Speed:" in the header:
    [Math.max(1, Math.floor((INITIAL_SPEED - gameState.speed + 10) / 2))]. *)
Definition speedLevel (gs : GameState) : Z :=
  Z.max 1 ((INITIAL_SPEED - speed gs + 10) / 2).

(** ** GameOverModal.tsx *)

(** The condition under which the modal shows "New High Score!":
    [gameState.score >= gameState.highScore && gameState.score > 0]. *)
Definition showsNewHighScore (gs : GameState) : bool :=
  (score gs >=? highScore gs) && (score gs >? 0).

(** ** GameBoard.tsx: the swipe handlers *)

(** A touch point [{ x, y }], from [clientX] and [clientY] in whole
    pixels. *)
Record TouchPoint : Type := mkTouchPoint { tx : Z; ty : Z }.

(** [handleTouchStart]: the new content of [touchStartRef]. *)
Definition handleTouchStart (touch : TouchPoint) : option TouchPoint :=
  Some touch.

(** [handleTouchEnd], from the content of [touchStartRef] and the point of
    the changed touch: the heading passed to [onDirectionChange], if the
    callback is called, and the new content of [touchStartRef]. *)
Definition handleTouchEnd (touchStartRef : option TouchPoint)
    (touchEnd : TouchPoint) : option Direction * option TouchPoint :=
  match touchStartRef with
  | None => (None, touchStartRef)
  | Some start =>
      let deltaX := tx touchEnd - tx start in
      let deltaY := ty touchEnd - ty start in
      if (Z.abs deltaX <? 30) && (Z.abs deltaY <? 30) then (None, touchStartRef)
      else if Z.abs deltaX >? Z.abs deltaY then
        (Some (if deltaX >? 0 then RIGHT else LEFT), None)
      else
        (Some (if deltaY >? 0 then DOWN else UP), None)
  end.

(** A whole swipe on the board of the component: touch start, touch end,
    and the call of [handleDirectionChange] that [GameBoard] makes through
    its [onDirectionChange] property. *)
Definition swipe (start finish : TouchPoint) (app : App) : App :=
  match fst (handleTouchEnd (handleTouchStart start) finish) with
  | Some dir => handleDirectionChange dir app
  | None => app
  end.

(** ** More vocabulary *)

(** Two cells that share a side. *)
Definition adjacent (a b : Coordinate) : Prop :=
  Z.abs (x a - x b) + Z.abs (y a - y b) = 1.

(** A body in which every segment is next to the one before it. *)
Fixpoint contiguous (body : list Coordinate) : Prop :=
  match body with
  | a :: rest =>
      match rest with
      | b :: _ => adjacent a b /\ contiguous rest
      | [] => True
      end
  | [] => True
  end.

(** What holds of the component, beyond [wellFormed], in the states it
    reaches: the score counts the growth of the body and fixes the speed,
    the pending heading does not reverse the current one, the head lies one
    step of the current heading from the second segment, the body is
    contiguous, a death cause is recorded exactly in GAME_OVER, and the
    storage, once written, holds the high score. *)
Record consistent (app : App) : Prop := mkConsistent {
  cs_wellFormed : wellFormed (gameState app);
  cs_length :
    Z.of_nat (List.length (snake (gameState app))) = 3 + score (gameState app);
  cs_speed :
    speed (gameState app)
    = Z.max MIN_SPEED (INITIAL_SPEED - SPEED_DECREMENT * score (gameState app));
  cs_pending : nextDirection app <> opposite (direction (gameState app));
  cs_neck :
    forall head neck rest,
      snake (gameState app) = head :: neck :: rest ->
      head = stepHead neck (direction (gameState app));
  cs_contiguous : contiguous (snake (gameState app));
  cs_death :
    status (gameState app) = GAME_OVER <-> deathReason (gameState app) <> None;
  cs_storage :
    storageCalls app = [] \/
    exists calls,
      storageCalls app
      = calls ++ [("snake-highscore"%string, toString (highScore (gameState app)))]
}.

(** A sequence of draws that counts up from 10: the first cell it gives is
    (10,11), the second (12,13). *)
Definition countingDraws : nat -> Z := fun n => Z.of_nat n + 10.

(** A sequence of draws that puts the food of a new game right ahead of
    the snake, at (10,9), the next food at (10,8), the one after at (4,4), and
    every later one at (7,7). *)
Definition scriptedDraws : nat -> Z := fun n => nth n [10; 9; 10; 8; 4; 4] 7.

(** A short game: start, eat twice, turn left, move, pause. *)
Definition sampleRun : list (nat * Op) :=
  [(1%nat, OpStartGame); (1%nat, OpTick); (1%nat, OpTick);
   (0%nat, OpDirectionChange LEFT); (0%nat, OpTick); (0%nat, OpPauseGame)].

Definition sampleGame : App :=
  match runOps scriptedDraws sampleRun (initialApp None) with
  | Some app => app
  | None => initialApp None
  end.

(** A game that starts with the high score 1 in the storage and eats
    once. *)
Definition tiedGame : App :=
  match runOps scriptedDraws [(1%nat, OpStartGame); (1%nat, OpTick)]
          (initialApp (Some 1)) with
  | Some app => app
  | None => initialApp (Some 1)
  end.

(** A game that ended against the wall, and a game in which every cell the
    random source can give is under the body once the food is eaten. *)
Definition crashedGame : App :=
  setGameState edgeGame (withDeath (gameState edgeGame) WALL).

Definition crowdedGame : App :=
  playing [mkCoordinate 3 4; mkCoordinate 3 5; mkCoordinate 3 6]
          (mkCoordinate 3 3) UP UP 0 0.



(** ** A game that fills the grid *)

(** The moves of a tour of the grid that starts at the head of the initial
    snake and ends next to its tail, as runs of equal headings: up column
    10, then down and up the columns to its left, up column 0, along row 0,
    and down and up the columns from 19 back to 10. *)
Definition tourRuns : list (Direction * nat) :=
  [(UP, 9); (LEFT, 1); (DOWN, 18); (LEFT, 1); (UP, 18); (LEFT, 1); (DOWN, 18);
   (LEFT, 1); (UP, 18); (LEFT, 1); (DOWN, 18); (LEFT, 1); (UP, 18); (LEFT, 1);
   (DOWN, 18); (LEFT, 1); (UP, 18); (LEFT, 1); (DOWN, 18); (LEFT, 1); (UP, 19);
   (RIGHT, 19); (DOWN, 19); (LEFT, 1); (UP, 18); (LEFT, 1); (DOWN, 18);
   (LEFT, 1); (UP, 18); (LEFT, 1); (DOWN, 18); (LEFT, 1); (UP, 18); (LEFT, 1);
   (DOWN, 18); (LEFT, 1); (UP, 18); (LEFT, 1); (DOWN, 18); (LEFT, 1);
   (UP, 6)]%nat.

Definition tourMoves : list Direction :=
  flat_map (fun r => repeat (fst r) (snd r)) tourRuns.

(** The cells a head visits when it makes the moves [moves] from [from]. *)
Fixpoint cellsAlong (from : Coordinate) (moves : list Direction) : list Coordinate :=
  match moves with
  | [] => []
  | dir :: moves' => stepHead from dir :: cellsAlong (stepHead from dir) moves'
  end.

Definition tourCells : list Coordinate :=
  cellsAlong (mkCoordinate 10 10) tourMoves.

(** The sequence of draws that puts each new food on the next cell of the
    tour: draw [2 * i] is the column and draw [2 * i + 1] the row of the
    [i]-th cell. *)
Definition tourDraws : nat -> Z :=
  fun n =>
    let c := nth (Nat.div2 n) tourCells (mkCoordinate 0 0) in
    if Nat.even n then x c else y c.

(** A game along the tour: start, then 396 times turn to the next move of
    the tour and tick, eating each time. *)
Definition tourRun : list (nat * Op) :=
  (1%nat, OpStartGame)
  :: flat_map (fun dir => [(0%nat, OpDirectionChange dir); (1%nat, OpTick)])
              (firstn 396 tourMoves).

Definition fullGridGame : App :=
  match runOps tourDraws tourRun (initialApp None) with
  | Some app => app
  | None => initialApp None
  end.

(** Every cell of the grid, column by column. *)
Definition gridCells : list Coordinate :=
  flat_map (fun cx => map (fun cy => mkCoordinate (Z.of_nat cx) (Z.of_nat cy))
                          (seq 0 (Z.to_nat GRID_SIZE)))
           (seq 0 (Z.to_nat GRID_SIZE)).

(** * Basic facts *)

Lemma Coordinate_eqb_eq (a b : Coordinate) :
  Coordinate_eqb a b = true <-> a = b.
Proof.
  unfold Coordinate_eqb. rewrite andb_true_iff, !Z.eqb_eq.
  destruct a as [ax ay], b as [bx by']; cbn. split.
  - intros [-> ->]. reflexivity.
  - intros H. injection H as -> ->. split; reflexivity.
Qed.

Lemma Coordinate_eqb_neq (a b : Coordinate) :
  Coordinate_eqb a b = false <-> a <> b.
Proof.
  rewrite <- Coordinate_eqb_eq. destruct (Coordinate_eqb a b); split; congruence.
Qed.

Lemma Coordinate_eqb_refl (a : Coordinate) : Coordinate_eqb a a = true.
Proof. apply Coordinate_eqb_eq. reflexivity. Qed.

Lemma isAtCoordinate_In (c : Coordinate) (arr : list Coordinate) :
  isAtCoordinate c arr = true <-> In c arr.
Proof.
  unfold isAtCoordinate. rewrite existsb_exists. split.
  - intros [seg [Hin Heq]]. apply Coordinate_eqb_eq in Heq. subst. exact Hin.
  - intros Hin. exists c. split; [exact Hin | apply Coordinate_eqb_refl].
Qed.

Lemma isAtCoordinate_not_In (c : Coordinate) (arr : list Coordinate) :
  isAtCoordinate c arr = false <-> ~ In c arr.
Proof.
  rewrite <- isAtCoordinate_In. destruct (isAtCoordinate c arr); split; congruence.
Qed.

(** The test of the post-pop check is [isAtCoordinate] with the sides of the
    comparisons swapped. *)
Lemma postPop_isAtCoordinate (c : Coordinate) (arr : list Coordinate) :
  existsb (fun seg => (x seg =? x c) && (y seg =? y c)) arr = isAtCoordinate c arr.
Proof. reflexivity. Qed.

(** The [!==] test against the tail is the negation of cell equality. *)
Lemma notTail_eqb (a b : Coordinate) :
  negb (x a =? x b) || negb (y a =? y b) = negb (Coordinate_eqb a b).
Proof. unfold Coordinate_eqb. rewrite negb_andb. reflexivity. Qed.

Lemma hitsWall_true (c : Coordinate) : hitsWall c = true <-> ~ inGrid c.
Proof.
  unfold hitsWall, inGrid. rewrite !orb_true_iff, !Z.ltb_lt, !Z.geb_le. lia.
Qed.

Lemma hitsWall_false (c : Coordinate) : hitsWall c = false <-> inGrid c.
Proof.
  unfold hitsWall, inGrid. rewrite !orb_false_iff, !Z.ltb_ge.
  assert (Hge : forall a b, (a >=? b) = false <-> a < b).
  { intros a b. rewrite Z.geb_leb. apply Z.leb_gt. }
  rewrite !Hge. lia.
Qed.

Lemma isOpposite_opposite (newDir current : Direction) :
  isOpposite newDir current = true <-> newDir = opposite current.
Proof. destruct newDir, current; cbn; split; congruence. Qed.

Lemma GameStatus_eqb_eq (a b : GameStatus) : GameStatus_eqb a b = true <-> a = b.
Proof. destruct a, b; cbn; split; congruence. Qed.

Lemma removelast_cons2 {A : Type} (a b : A) (l : list A) :
  removelast (a :: b :: l) = a :: removelast (b :: l).
Proof. reflexivity. Qed.

Lemma length_removelast_cons {A : Type} (a : A) (l : list A) :
  List.length (removelast (a :: l)) = List.length l.
Proof.
  revert a. induction l as [|b l IH]; intros a; [reflexivity|].
  rewrite removelast_cons2. cbn [List.length]. rewrite IH. reflexivity.
Qed.

Lemma In_removelast {A : Type} (c : A) (l : list A) :
  In c (removelast l) -> In c l.
Proof.
  induction l as [|a l IH]; [intros []|].
  destruct l as [|b l]; [intros []|].
  rewrite removelast_cons2. intros [<- | H]; [left; reflexivity | right; auto].
Qed.

Lemma In_last {A : Type} (d : A) (l : list A) : l <> [] -> In (last l d) l.
Proof.
  induction l as [|a l IH]; [congruence|]. intros _.
  destruct l as [|b l]; [left; reflexivity|].
  right. apply IH. discriminate.
Qed.

Lemma NoDup_last_not_removelast {A : Type} (d : A) (l : list A) :
  l <> [] -> NoDup l -> ~ In (last l d) (removelast l).
Proof.
  intros Hne Hnd Hin.
  rewrite (app_removelast_last d Hne) in Hnd.
  apply NoDup_remove_2 in Hnd. rewrite app_nil_r in Hnd. contradiction.
Qed.

Lemma NoDup_removelast {A : Type} (l : list A) : NoDup l -> NoDup (removelast l).
Proof.
  intros Hnd. destruct l as [|a l]; [exact Hnd|].
  assert (Hne : a :: l <> []) by discriminate.
  rewrite (app_removelast_last a Hne) in Hnd.
  apply NoDup_remove_1 in Hnd. rewrite app_nil_r in Hnd. exact Hnd.
Qed.

Lemma Forall_removelast {A : Type} (P : A -> Prop) (l : list A) :
  Forall P l -> Forall P (removelast l).
Proof.
  rewrite !Forall_forall. intros H c Hc. apply H, In_removelast, Hc.
Qed.

(** * The loop of [generateFood] *)

Section GenerateFood.

Variable random : nat -> Z.

Lemma drawnCell_0 (pos : nat) :
  drawnCell random pos 0 = {| x := random pos; y := random (S pos) |}.
Proof. unfold drawnCell. rewrite Nat.mul_0_r, Nat.add_0_r. reflexivity. Qed.

Lemma drawnCell_S (pos k : nat) :
  drawnCell random pos (S k) = drawnCell random (S (S pos)) k.
Proof.
  unfold drawnCell. replace (pos + 2 * S k)%nat with (S (S pos) + 2 * k)%nat by lia.
  reflexivity.
Qed.

(** What [generateFood] returns is off the snake: it is the first drawn
    cell that is. *)
Lemma generateFood_sound (fuel pos : nat) (body : list Coordinate)
    (newFood : Coordinate) (pos' : nat) :
  generateFood random fuel pos body = Some (newFood, pos') ->
  isAtCoordinate newFood body = false /\
  exists k, (k < fuel)%nat /\ newFood = drawnCell random pos k /\
            pos' = (pos + 2 * S k)%nat /\
            forall j, (j < k)%nat -> isAtCoordinate (drawnCell random pos j) body = true.
Proof.
  revert pos. induction fuel as [|fuel IH]; intros pos; cbn [generateFood]; [discriminate|].
  rewrite <- drawnCell_0.
  destruct (isAtCoordinate (drawnCell random pos 0) body) eqn:Hat; cbn [negb].
  - intros H. destruct (IH _ H) as [Hoff [k [Hk [Hf [Hp Hrej]]]]].
    split; [exact Hoff|]. exists (S k). repeat split.
    + lia.
    + rewrite drawnCell_S. exact Hf.
    + lia.
    + intros [|j] Hj; [exact Hat|]. rewrite drawnCell_S. apply Hrej. lia.
  - intros H. injection H as <- <-. split; [exact Hat|].
    exists 0%nat. split; [lia|]. split; [reflexivity|]. split; [lia|].
    intros j Hj. lia.
Qed.

(** The loop ends as soon as a drawn cell is off the snake: fuel beyond the
    index of such a draw gives a result. *)
Lemma generateFood_complete (k : nat) :
  forall (pos : nat) (body : list Coordinate) (fuel : nat),
  isAtCoordinate (drawnCell random pos k) body = false ->
  (k < fuel)%nat ->
  exists newFood pos', generateFood random fuel pos body = Some (newFood, pos').
Proof.
  induction k as [|k IH]; intros pos body fuel Hfree Hfuel;
    (destruct fuel as [|fuel]; [lia|]); cbn [generateFood]; rewrite <- drawnCell_0.
  - rewrite Hfree. cbn [negb]. eauto.
  - destruct (isAtCoordinate (drawnCell random pos 0) body); cbn [negb]; [|eauto].
    apply IH; [|lia]. rewrite <- drawnCell_S. exact Hfree.
Qed.

(** More fuel does not change a result. *)
Lemma generateFood_fuel_mono (fuel fuel' pos : nat) (body : list Coordinate)
    (r : Coordinate * nat) :
  generateFood random fuel pos body = Some r ->
  (fuel <= fuel')%nat ->
  generateFood random fuel' pos body = Some r.
Proof.
  revert fuel' pos. induction fuel as [|fuel IH]; intros fuel' pos; [discriminate|].
  intros H Hle. destruct fuel' as [|fuel']; [lia|].
  cbn [generateFood] in *.
  destruct (negb (isAtCoordinate _ body)); [exact H|].
  apply IH; [exact H | lia].
Qed.

(** When every cell that can be drawn is under the snake the loop never
    ends: no amount of fuel gives a result. *)
Lemma generateFood_diverges (body : list Coordinate) :
  (forall pos k, isAtCoordinate (drawnCell random pos k) body = true) ->
  forall fuel pos, generateFood random fuel pos body = None.
Proof.
  intros Hfull fuel. induction fuel as [|fuel IH]; intros pos; [reflexivity|].
  cbn [generateFood]. rewrite <- drawnCell_0, Hfull. cbn [negb]. apply IH.
Qed.

End GenerateFood.

(** * The paths of the game loop *)

Section TickPaths.

Variable random : nat -> Z.
Variable fuel : nat.
Variable app : App.
Variables (head : Coordinate) (rest : list Coordinate).

Hypothesis Hplaying : status (gameState app) = PLAYING.
Hypothesis Hsnake : snake (gameState app) = head :: rest.

Ltac enter_tick :=
  unfold tick; rewrite Hplaying; cbn [GameStatus_eqb negb];
  rewrite Hsnake; cbv zeta.

Lemma tick_wall_path :
  hitsWall (stepHead head (nextDirection app)) = true ->
  tick random fuel app = Some (setGameState app (withDeath (gameState app) WALL)).
Proof. intros Hwall. enter_tick. rewrite Hwall. reflexivity. Qed.

Lemma tick_body_path :
  hitsWall (stepHead head (nextDirection app)) = false ->
  In (stepHead head (nextDirection app)) (head :: rest) ->
  stepHead head (nextDirection app) <> last (head :: rest) head ->
  tick random fuel app = Some (setGameState app (withDeath (gameState app) SELF)).
Proof.
  intros Hwall Hin Hnt. enter_tick. rewrite Hwall.
  apply isAtCoordinate_In in Hin. rewrite Hin.
  apply Coordinate_eqb_neq in Hnt. rewrite notTail_eqb, Hnt. reflexivity.
Qed.

(** The condition of the self-collision test and of the [if] nested in it,
    taken together, is false exactly when the new head is off the body
    or on the cell of the tail. *)
Lemma preTest_false (newHead : Coordinate) :
  (In newHead (head :: rest) -> newHead = last (head :: rest) head) ->
  isAtCoordinate newHead (head :: rest)
  && (negb (x newHead =? x (last (head :: rest) head))
      || negb (y newHead =? y (last (head :: rest) head))) = false.
Proof.
  intros H. rewrite notTail_eqb.
  destruct (isAtCoordinate newHead (head :: rest)) eqn:Hat; [|reflexivity].
  apply isAtCoordinate_In in Hat. rewrite <- (H Hat).
  rewrite Coordinate_eqb_refl. reflexivity.
Qed.

Lemma tick_eat_path (newFood : Coordinate) (pos' : nat) :
  hitsWall (stepHead head (nextDirection app)) = false ->
  (In (stepHead head (nextDirection app)) (head :: rest) ->
   stepHead head (nextDirection app) = last (head :: rest) head) ->
  stepHead head (nextDirection app) = food (gameState app) ->
  generateFood random fuel (randomPos app)
    (stepHead head (nextDirection app) :: head :: rest) = Some (newFood, pos') ->
  tick random fuel app =
  Some {| gameState :=
            {| snake := stepHead head (nextDirection app) :: head :: rest;
               food := newFood;
               direction := nextDirection app;
               score := score (gameState app) + 1;
               highScore :=
                 if score (gameState app) + 1 >? highScore (gameState app)
                 then score (gameState app) + 1
                 else highScore (gameState app);
               status := PLAYING;
               speed := Z.max MIN_SPEED (speed (gameState app) - SPEED_DECREMENT);
               deathReason := deathReason (gameState app) |};
          nextDirection := nextDirection app;
          storageCalls :=
            if score (gameState app) + 1 >? highScore (gameState app)
            then storageCalls app
                   ++ [("snake-highscore"%string, toString (score (gameState app) + 1))]
            else storageCalls app;
          randomPos := pos' |}.
Proof.
  intros Hwall Hpre Hfood Hgen. enter_tick. rewrite Hwall.
  rewrite (preTest_false _ Hpre).
  rewrite <- Hfood, !Z.eqb_refl. cbn [andb].
  rewrite Hgen. reflexivity.
Qed.

Lemma tick_eat_out_of_fuel :
  hitsWall (stepHead head (nextDirection app)) = false ->
  (In (stepHead head (nextDirection app)) (head :: rest) ->
   stepHead head (nextDirection app) = last (head :: rest) head) ->
  stepHead head (nextDirection app) = food (gameState app) ->
  generateFood random fuel (randomPos app)
    (stepHead head (nextDirection app) :: head :: rest) = None ->
  tick random fuel app = None.
Proof.
  intros Hwall Hpre Hfood Hgen. enter_tick. rewrite Hwall.
  rewrite (preTest_false _ Hpre).
  rewrite <- Hfood, !Z.eqb_refl. cbn [andb].
  rewrite Hgen. reflexivity.
Qed.

Lemma notFood_eqb (newHead : Coordinate) :
  newHead <> food (gameState app) ->
  (x newHead =? x (food (gameState app))) && (y newHead =? y (food (gameState app)))
  = false.
Proof. intros H. apply Coordinate_eqb_neq in H. exact H. Qed.

Lemma tick_slide_path :
  hitsWall (stepHead head (nextDirection app)) = false ->
  (In (stepHead head (nextDirection app)) (head :: rest) ->
   stepHead head (nextDirection app) = last (head :: rest) head) ->
  stepHead head (nextDirection app) <> food (gameState app) ->
  ~ In (stepHead head (nextDirection app)) (removelast (head :: rest)) ->
  tick random fuel app =
  Some (setGameState app
          {| snake := stepHead head (nextDirection app) :: removelast (head :: rest);
             food := food (gameState app);
             direction := nextDirection app;
             score := score (gameState app);
             highScore := highScore (gameState app);
             status := PLAYING;
             speed := speed (gameState app);
             deathReason := deathReason (gameState app) |}).
Proof.
  intros Hwall Hpre Hfood Hpost. enter_tick. rewrite Hwall.
  rewrite (preTest_false _ Hpre), (notFood_eqb _ Hfood).
  rewrite removelast_cons2. cbn [tl]. rewrite postPop_isAtCoordinate.
  apply isAtCoordinate_not_In in Hpost. rewrite Hpost. reflexivity.
Qed.

Lemma tick_postPop_path :
  hitsWall (stepHead head (nextDirection app)) = false ->
  (In (stepHead head (nextDirection app)) (head :: rest) ->
   stepHead head (nextDirection app) = last (head :: rest) head) ->
  stepHead head (nextDirection app) <> food (gameState app) ->
  In (stepHead head (nextDirection app)) (removelast (head :: rest)) ->
  tick random fuel app = Some (setGameState app (withDeath (gameState app) SELF)).
Proof.
  intros Hwall Hpre Hfood Hpost. enter_tick. rewrite Hwall.
  rewrite (preTest_false _ Hpre), (notFood_eqb _ Hfood).
  rewrite removelast_cons2. cbn [tl]. rewrite postPop_isAtCoordinate.
  apply isAtCoordinate_In in Hpost. rewrite Hpost. reflexivity.
Qed.

End TickPaths.

(** The guard at the top of the updater. *)
Lemma tick_guard_path (random : nat -> Z) (fuel : nat) (app : App) :
  status (gameState app) <> PLAYING ->
  tick random fuel app = Some app.
Proof.
  intros Hstatus. unfold tick.
  destruct (GameStatus_eqb (status (gameState app)) PLAYING) eqn:E.
  - apply GameStatus_eqb_eq in E. contradiction.
  - reflexivity.
Qed.

(** With no segment at all there is no head to move: the tick only commits
    the pending heading. *)
Lemma tick_empty_path (random : nat -> Z) (fuel : nat) (app : App) :
  status (gameState app) = PLAYING ->
  snake (gameState app) = [] ->
  tick random fuel app =
  Some (setGameState app
          {| snake := []; food := food (gameState app);
             direction := nextDirection app;
             score := score (gameState app);
             highScore := highScore (gameState app);
             status := PLAYING;
             speed := speed (gameState app);
             deathReason := deathReason (gameState app) |}).
Proof.
  intros Hplaying Hsnake. unfold tick. rewrite Hplaying, Hsnake. reflexivity.
Qed.

(** Every result of a tick of a game in progress comes from one of the four
    exits of the loop body: the wall death, a self death (at the pre-check
    or at the post-pop check), the growth commit or the slide commit. *)
Lemma tick_cases (random : nat -> Z) (fuel : nat) (app app' : App)
    (head : Coordinate) (rest : list Coordinate) :
  status (gameState app) = PLAYING ->
  snake (gameState app) = head :: rest ->
  tick random fuel app = Some app' ->
  let newHead := stepHead head (nextDirection app) in
  (~ inGrid newHead /\
   app' = setGameState app (withDeath (gameState app) WALL))
  \/ (inGrid newHead /\ In newHead (head :: rest) /\
      app' = setGameState app (withDeath (gameState app) SELF))
  \/ (inGrid newHead /\ newHead = food (gameState app) /\
      (In newHead (head :: rest) -> newHead = last (head :: rest) head) /\
      exists newFood pos',
        generateFood random fuel (randomPos app) (newHead :: head :: rest)
          = Some (newFood, pos') /\
        app' =
        {| gameState :=
             {| snake := newHead :: head :: rest;
                food := newFood;
                direction := nextDirection app;
                score := score (gameState app) + 1;
                highScore :=
                  if score (gameState app) + 1 >? highScore (gameState app)
                  then score (gameState app) + 1
                  else highScore (gameState app);
                status := PLAYING;
                speed := Z.max MIN_SPEED (speed (gameState app) - SPEED_DECREMENT);
                deathReason := deathReason (gameState app) |};
           nextDirection := nextDirection app;
           storageCalls :=
             if score (gameState app) + 1 >? highScore (gameState app)
             then storageCalls app
                    ++ [("snake-highscore"%string, toString (score (gameState app) + 1))]
             else storageCalls app;
           randomPos := pos' |})
  \/ (inGrid newHead /\ newHead <> food (gameState app) /\
      ~ In newHead (removelast (head :: rest)) /\
      app' =
      setGameState app
        {| snake := newHead :: removelast (head :: rest);
           food := food (gameState app);
           direction := nextDirection app;
           score := score (gameState app);
           highScore := highScore (gameState app);
           status := PLAYING;
           speed := speed (gameState app);
           deathReason := deathReason (gameState app) |}).
Proof.
  intros Hplaying Hsnake Htick newHead.
  destruct (hitsWall newHead) eqn:Hwall.
  { left. split; [apply hitsWall_true, Hwall|].
    rewrite (tick_wall_path random fuel app head rest Hplaying Hsnake Hwall) in Htick.
    injection Htick as <-. reflexivity. }
  right. assert (Hgrid : inGrid newHead) by (apply hitsWall_false, Hwall).
  destruct (isAtCoordinate newHead (head :: rest)) eqn:Hat.
  - apply isAtCoordinate_In in Hat.
    destruct (Coordinate_eqb newHead (last (head :: rest) head)) eqn:Htail.
    + apply Coordinate_eqb_eq in Htail.
      destruct (Coordinate_eqb newHead (food (gameState app))) eqn:Hfood.
      * apply Coordinate_eqb_eq in Hfood. right. left.
        destruct (generateFood random fuel (randomPos app) (newHead :: head :: rest))
          as [[newFood pos']|] eqn:Hgen.
        -- rewrite (tick_eat_path random fuel app head rest Hplaying Hsnake
                      newFood pos' Hwall (fun _ => Htail) Hfood Hgen) in Htick.
           split; [exact Hgrid|]. split; [exact Hfood|].
           split; [intros _; exact Htail|].
           exists newFood, pos'. split; [reflexivity|].
           injection Htick as <-. reflexivity.
        -- rewrite (tick_eat_out_of_fuel random fuel app head rest Hplaying Hsnake
                      Hwall (fun _ => Htail) Hfood Hgen) in Htick.
           discriminate.
      * apply Coordinate_eqb_neq in Hfood.
        destruct (isAtCoordinate newHead (removelast (head :: rest))) eqn:Hpost.
        -- apply isAtCoordinate_In in Hpost. left.
           rewrite (tick_postPop_path random fuel app head rest Hplaying Hsnake
                      Hwall (fun _ => Htail) Hfood Hpost) in Htick.
           repeat (split; [assumption|]). injection Htick as <-. reflexivity.
        -- apply isAtCoordinate_not_In in Hpost. right. right.
           rewrite (tick_slide_path random fuel app head rest Hplaying Hsnake
                      Hwall (fun _ => Htail) Hfood Hpost) in Htick.
           repeat (split; [assumption|]). injection Htick as <-. reflexivity.
    + apply Coordinate_eqb_neq in Htail. left.
      rewrite (tick_body_path random fuel app head rest Hplaying Hsnake
                 Hwall Hat Htail) in Htick.
      repeat (split; [assumption|]). injection Htick as <-. reflexivity.
  - apply isAtCoordinate_not_In in Hat.
    assert (Hpre : In newHead (head :: rest) -> newHead = last (head :: rest) head)
      by (intros H; contradiction).
    assert (Hpost : ~ In newHead (removelast (head :: rest)))
      by (intros H; apply Hat, In_removelast, H).
    destruct (Coordinate_eqb newHead (food (gameState app))) eqn:Hfood.
    + apply Coordinate_eqb_eq in Hfood. right. left.
      destruct (generateFood random fuel (randomPos app) (newHead :: head :: rest))
        as [[newFood pos']|] eqn:Hgen.
      * rewrite (tick_eat_path random fuel app head rest Hplaying Hsnake
                   newFood pos' Hwall Hpre Hfood Hgen) in Htick.
        split; [exact Hgrid|]. split; [exact Hfood|]. split; [exact Hpre|].
        exists newFood, pos'. split; [reflexivity|].
           injection Htick as <-. reflexivity.
      * rewrite (tick_eat_out_of_fuel random fuel app head rest Hplaying Hsnake
                   Hwall Hpre Hfood Hgen) in Htick.
        discriminate.
    + apply Coordinate_eqb_neq in Hfood. right. right.
      rewrite (tick_slide_path random fuel app head rest Hplaying Hsnake
                 Hwall Hpre Hfood Hpost) in Htick.
      repeat (split; [assumption|]). injection Htick as <-. reflexivity.
Qed.

(** * The tick engine: terminal transitions *)

(** C8. A tick in a state whose status is not PLAYING (IDLE, PAUSED or
    GAME_OVER) changes nothing: the game state, the pending heading, the
    storage and the random source are all as before. *)
Theorem tick_ignored_unless_playing (random : nat -> Z) (fuel : nat) (app : App) :
  status (gameState app) <> PLAYING ->
  tick random fuel app = Some app.
Proof.
  intros Hstatus. destruct (status (gameState app)) eqn:E.
  - apply tick_guard_path. congruence.
  - contradiction.
  - apply tick_guard_path. congruence.
  - apply tick_guard_path. congruence.
Qed.

Lemma tick_ignored_unless_playing_witness :
  status (gameState (pauseGame straightGame)) = PAUSED /\
  tick (constantDraws 3) 0 (pauseGame straightGame) = Some (pauseGame straightGame).
Proof.
  split; [reflexivity|].
  apply (tick_ignored_unless_playing (constantDraws 3) 0 (pauseGame straightGame)).
  simpl. discriminate.
Defined.

(** C3. In a PLAYING state whose new head cell is outside the grid on
    either axis, the tick sets the status to GAME_OVER and the death cause to
    WALL and leaves the snake, the food, the score, the speed, the high
    score and the direction as they were. *)
Theorem tick_wall_death (random : nat -> Z) (fuel : nat) (app : App)
    (newHead : Coordinate) :
  status (gameState app) = PLAYING ->
  newHeadOf app = Some newHead ->
  ~ inGrid newHead ->
  exists app',
    tick random fuel app = Some app' /\
    status (gameState app') = GAME_OVER /\
    deathReason (gameState app') = Some WALL /\
    snake (gameState app') = snake (gameState app) /\
    food (gameState app') = food (gameState app) /\
    score (gameState app') = score (gameState app) /\
    speed (gameState app') = speed (gameState app) /\
    highScore (gameState app') = highScore (gameState app) /\
    direction (gameState app') = direction (gameState app).
Proof.
  intros Hplaying Hnew Hout. unfold newHeadOf in Hnew.
  destruct (snake (gameState app)) as [|head rest] eqn:Hsnake; [discriminate|].
  injection Hnew as <-. apply hitsWall_true in Hout.
  exists (setGameState app (withDeath (gameState app) WALL)).
  split; [apply (tick_wall_path random fuel app head rest Hplaying Hsnake Hout)|].
  cbn. rewrite Hsnake. repeat split.
Qed.

Lemma tick_wall_death_witness :
  exists app',
    tick (constantDraws 3) 0 edgeGame = Some app' /\
    status (gameState app') = GAME_OVER /\
    deathReason (gameState app') = Some WALL /\
    snake (gameState app') = snake (gameState edgeGame) /\
    food (gameState app') = food (gameState edgeGame) /\
    score (gameState app') = score (gameState edgeGame) /\
    speed (gameState app') = speed (gameState edgeGame) /\
    highScore (gameState app') = highScore (gameState edgeGame) /\
    direction (gameState app') = direction (gameState edgeGame).
Proof.
  apply (tick_wall_death (constantDraws 3) 0 edgeGame (mkCoordinate (-1) 5)).
  - reflexivity.
  - reflexivity.
  - unfold inGrid, GRID_SIZE. simpl. lia.
Defined.

(** C4. In a PLAYING state of the data model (every segment on the grid)
    in which the snake does not eat and the new head cell is a cell of the
    body other than the cell of the tail, the tick sets the status to
    GAME_OVER and the death cause to SELF. *)
Theorem tick_body_death (random : nat -> Z) (fuel : nat) (app : App)
    (newHead tail : Coordinate) :
  status (gameState app) = PLAYING ->
  Forall inGrid (snake (gameState app)) ->
  newHeadOf app = Some newHead ->
  tailOf app = Some tail ->
  newHead <> food (gameState app) ->
  In newHead (snake (gameState app)) ->
  newHead <> tail ->
  exists app',
    tick random fuel app = Some app' /\
    status (gameState app') = GAME_OVER /\
    deathReason (gameState app') = Some SELF.
Proof.
  intros Hplaying Hgrid Hnew Htail _ Hin Hnt. unfold newHeadOf, tailOf in *.
  destruct (snake (gameState app)) as [|head rest] eqn:Hsnake; [discriminate|].
  injection Hnew as <-. injection Htail as <-.
  assert (Hwall : hitsWall (stepHead head (nextDirection app)) = false).
  { apply hitsWall_false. rewrite Forall_forall in Hgrid. apply Hgrid, Hin. }
  exists (setGameState app (withDeath (gameState app) SELF)).
  split; [|split; reflexivity].
  apply (tick_body_path random fuel app head rest Hplaying Hsnake Hwall Hin Hnt).
Qed.

Lemma tick_body_death_witness :
  exists app',
    tick (constantDraws 3) 0 bitingGame = Some app' /\
    status (gameState app') = GAME_OVER /\
    deathReason (gameState app') = Some SELF.
Proof.
  apply (tick_body_death (constantDraws 3) 0 bitingGame
           (mkCoordinate 5 6) (mkCoordinate 6 6)).
  - reflexivity.
  - unfold inGrid, GRID_SIZE. simpl. repeat constructor; simpl; lia.
  - reflexivity.
  - reflexivity.
  - simpl. discriminate.
  - simpl. auto.
  - discriminate.
Defined.

(** The same death when the new head is on a segment before the last one,
    whatever the cell of the tail: the post-pop check catches what the
    pre-check lets through. *)
Lemma tick_segment_death (random : nat -> Z) (fuel : nat) (app : App)
    (newHead : Coordinate) :
  status (gameState app) = PLAYING ->
  inGrid newHead ->
  newHeadOf app = Some newHead ->
  newHead <> food (gameState app) ->
  In newHead (removelast (snake (gameState app))) ->
  tick random fuel app = Some (setGameState app (withDeath (gameState app) SELF)).
Proof.
  intros Hplaying Hgrid Hnew Hfood Hin. unfold newHeadOf in Hnew.
  destruct (snake (gameState app)) as [|head rest] eqn:Hsnake; [discriminate|].
  injection Hnew as <-. apply hitsWall_false in Hgrid.
  destruct (Coordinate_eqb (stepHead head (nextDirection app))
              (last (head :: rest) head)) eqn:Htail.
  - apply Coordinate_eqb_eq in Htail.
    apply (tick_postPop_path random fuel app head rest Hplaying Hsnake Hgrid
             (fun _ => Htail) Hfood Hin).
  - apply Coordinate_eqb_neq in Htail.
    apply (tick_body_path random fuel app head rest Hplaying Hsnake Hgrid
             (In_removelast _ _ Hin) Htail).
Qed.

(** C2. In a PLAYING state of the data model (every segment on the grid,
    no two segments on one cell) whose new head cell is the cell of the tail
    and not the cell of the food, the tick is survived: the status stays
    PLAYING and the body is as long as before. *)
Theorem tick_onto_tail_survives (random : nat -> Z) (fuel : nat) (app : App)
    (newHead : Coordinate) :
  status (gameState app) = PLAYING ->
  Forall inGrid (snake (gameState app)) ->
  NoDup (snake (gameState app)) ->
  newHeadOf app = Some newHead ->
  tailOf app = Some newHead ->
  newHead <> food (gameState app) ->
  exists app',
    tick random fuel app = Some app' /\
    status (gameState app') = PLAYING /\
    List.length (snake (gameState app')) = List.length (snake (gameState app)).
Proof.
  intros Hplaying Hgrid Hnd Hnew Htail Hfood. unfold newHeadOf, tailOf in *.
  destruct (snake (gameState app)) as [|head rest] eqn:Hsnake; [discriminate|].
  injection Hnew as <-.
  assert (Htail' : stepHead head (nextDirection app) = last (head :: rest) head)
    by (injection Htail as Htail; symmetry; exact Htail).
  clear Htail. rename Htail' into Htail.
  assert (Hne : head :: rest <> []) by discriminate.
  assert (Hwall : hitsWall (stepHead head (nextDirection app)) = false).
  { apply hitsWall_false. rewrite Forall_forall in Hgrid. apply Hgrid.
    rewrite Htail. apply In_last, Hne. }
  assert (Hpost : ~ In (stepHead head (nextDirection app)) (removelast (head :: rest))).
  { rewrite Htail. apply NoDup_last_not_removelast; assumption. }
  eexists. split.
  - apply (tick_slide_path random fuel app head rest Hplaying Hsnake Hwall
             (fun _ => Htail) Hfood Hpost).
  - cbn [gameState setGameState status snake]. split; [reflexivity|].
    cbn [List.length]. rewrite length_removelast_cons. reflexivity.
Qed.

Lemma tick_onto_tail_survives_witness :
  exists app',
    tick (constantDraws 3) 0 chasingGame = Some app' /\
    status (gameState app') = PLAYING /\
    List.length (snake (gameState app')) = List.length (snake (gameState chasingGame)).
Proof.
  apply (tick_onto_tail_survives (constantDraws 3) 0 chasingGame (mkCoordinate 5 6)).
  - reflexivity.
  - unfold inGrid, GRID_SIZE. simpl. repeat constructor; simpl; lia.
  - simpl. repeat constructor; simpl; intuition discriminate.
  - reflexivity.
  - reflexivity.
  - simpl. discriminate.
Defined.


(** * The direction buffer *)

(** C5. [handleDirectionChange] leaves the pending heading (and everything
    else) unchanged when the requested heading is the exact opposite of the
    current heading of the game state, and otherwise overwrites the pending
    heading with the request, so that of two accepted requests the second
    one stays; the test looks at the current heading only: a request that
    reverses the pending heading but not the current one is accepted. *)
Theorem handleDirectionChange_buffer (requested : Direction) (app : App) :
  (requested = opposite (direction (gameState app)) ->
   handleDirectionChange requested app = app) /\
  (requested <> opposite (direction (gameState app)) ->
   nextDirection (handleDirectionChange requested app) = requested) /\
  gameState (handleDirectionChange requested app) = gameState app /\
  (forall second,
     second <> opposite (direction (gameState app)) ->
     nextDirection (handleDirectionChange second (handleDirectionChange requested app))
     = second) /\
  (forall pending,
     nextDirection
       (handleDirectionChange requested
          {| gameState := gameState app; nextDirection := pending;
             storageCalls := storageCalls app; randomPos := randomPos app |})
     = if Direction_eqb requested (opposite (direction (gameState app)))
       then pending else requested).
Proof.
  assert (Hgs : forall r a, gameState (handleDirectionChange r a) = gameState a).
  { intros r a. unfold handleDirectionChange.
    destruct (isOpposite r (direction (gameState a))); reflexivity. }
  assert (Hacc : forall r a, r <> opposite (direction (gameState a)) ->
                 nextDirection (handleDirectionChange r a) = r).
  { intros r a Hr. unfold handleDirectionChange.
    destruct (isOpposite r (direction (gameState a))) eqn:E; [|reflexivity].
    apply isOpposite_opposite in E. contradiction. }
  split; [|split; [|split; [|split]]].
  - intros Hr. apply isOpposite_opposite in Hr.
    unfold handleDirectionChange. rewrite Hr. reflexivity.
  - apply Hacc.
  - apply Hgs.
  - intros second Hs. apply Hacc. rewrite Hgs. exact Hs.
  - intros pending. unfold handleDirectionChange. cbn [gameState nextDirection].
    destruct requested, (direction (gameState app)); reflexivity.
Qed.

Lemma handleDirectionChange_buffer_witness :
  handleDirectionChange DOWN straightGame = straightGame /\
  nextDirection (handleDirectionChange LEFT straightGame) = LEFT /\
  nextDirection (handleDirectionChange RIGHT (handleDirectionChange LEFT straightGame))
  = RIGHT.
Proof.
  split; [|split].
  - apply (proj1 (handleDirectionChange_buffer DOWN straightGame)). reflexivity.
  - apply (proj1 (proj2 (handleDirectionChange_buffer LEFT straightGame))).
    simpl. discriminate.
  - apply (proj1 (proj2 (proj2 (proj2
             (handleDirectionChange_buffer LEFT straightGame)))) RIGHT).
    simpl. discriminate.
Defined.

(** * The tick engine: moving and growing *)

(** C9. On the 20x20 grid ([GRID_SIZE] is 20), from a PLAYING state with the snake
    [(10,10),(10,11),(10,12)], heading UP, no change of heading pending and
    the food not at (10,9), one tick gives the snake
    [(10,9),(10,10),(10,11)] and leaves the score and the tick interval as
    they were. *)
Theorem tick_scenario_A (random : nat -> Z) (fuel : nat) (app : App) :
  status (gameState app) = PLAYING ->
  snake (gameState app)
    = [mkCoordinate 10 10; mkCoordinate 10 11; mkCoordinate 10 12] ->
  direction (gameState app) = UP ->
  nextDirection app = direction (gameState app) ->
  food (gameState app) <> mkCoordinate 10 9 ->
  exists app',
    tick random fuel app = Some app' /\
    snake (gameState app')
      = [mkCoordinate 10 9; mkCoordinate 10 10; mkCoordinate 10 11] /\
    score (gameState app') = score (gameState app) /\
    speed (gameState app') = speed (gameState app).
Proof.
  intros Hplaying Hsnake Hdir Hnext Hfood.
  rewrite Hdir in Hnext.
  assert (Hnew : stepHead (mkCoordinate 10 10) (nextDirection app) = mkCoordinate 10 9)
    by (rewrite Hnext; reflexivity).
  eexists. split.
  - apply (tick_slide_path random fuel app _ _ Hplaying Hsnake); rewrite Hnew.
    + reflexivity.
    + cbn. intros [H | [H | [H | []]]]; discriminate H.
    + congruence.
    + cbn. intros [H | [H | []]]; discriminate H.
  - cbn [gameState setGameState snake score speed]. rewrite Hnew.
    repeat split.
Qed.

Lemma tick_scenario_A_witness :
  exists app',
    tick (constantDraws 3) 0 straightGame = Some app' /\
    snake (gameState app')
      = [mkCoordinate 10 9; mkCoordinate 10 10; mkCoordinate 10 11] /\
    score (gameState app') = score (gameState straightGame) /\
    speed (gameState app') = speed (gameState straightGame).
Proof.
  apply (tick_scenario_A (constantDraws 3) 0 straightGame).
  - reflexivity.
  - reflexivity.
  - reflexivity.
  - reflexivity.
  - simpl. discriminate.
Defined.

(** C10. When a tick of a PLAYING state ends in GAME_OVER with death cause
    SELF, the snake, the food, the score, the speed, the high score and the
    direction are those from before the tick: the pending heading that the
    tick used is not written to the direction. *)
Theorem tick_self_death_frame (random : nat -> Z) (fuel : nat) (app app' : App) :
  status (gameState app) = PLAYING ->
  tick random fuel app = Some app' ->
  status (gameState app') = GAME_OVER ->
  deathReason (gameState app') = Some SELF ->
  snake (gameState app') = snake (gameState app) /\
  food (gameState app') = food (gameState app) /\
  score (gameState app') = score (gameState app) /\
  speed (gameState app') = speed (gameState app) /\
  highScore (gameState app') = highScore (gameState app) /\
  direction (gameState app') = direction (gameState app).
Proof.
  intros Hplaying Htick Hover Hself.
  destruct (snake (gameState app)) as [|head rest] eqn:Hsnake.
  - rewrite (tick_empty_path random fuel app Hplaying Hsnake) in Htick.
    injection Htick as <-. discriminate Hover.
  - destruct (tick_cases random fuel app app' head rest Hplaying Hsnake Htick)
      as [[_ ->] | [[_ [_ ->]] | [[_ [_ [_ [nf [p [_ ->]]]]]] | [_ [_ [_ ->]]]]]].
    + discriminate Hself.
    + cbn. rewrite Hsnake. repeat split.
    + discriminate Hover.
    + discriminate Hover.
Qed.

Lemma tick_self_death_frame_witness :
  snake (gameState (setGameState bitingGame (withDeath (gameState bitingGame) SELF)))
    = snake (gameState bitingGame) /\
  food (gameState (setGameState bitingGame (withDeath (gameState bitingGame) SELF)))
    = food (gameState bitingGame) /\
  score (gameState (setGameState bitingGame (withDeath (gameState bitingGame) SELF)))
    = score (gameState bitingGame) /\
  speed (gameState (setGameState bitingGame (withDeath (gameState bitingGame) SELF)))
    = speed (gameState bitingGame) /\
  highScore (gameState (setGameState bitingGame (withDeath (gameState bitingGame) SELF)))
    = highScore (gameState bitingGame) /\
  direction (gameState (setGameState bitingGame (withDeath (gameState bitingGame) SELF)))
    = direction (gameState bitingGame).
Proof.
  apply (tick_self_death_frame (constantDraws 3) 0 bitingGame
           (setGameState bitingGame (withDeath (gameState bitingGame) SELF))).
  - reflexivity.
  - vm_compute. reflexivity.
  - reflexivity.
  - reflexivity.
Defined.

(** C6 (amended). In a PLAYING state whose new head cell is the cell of the
    food, is on the grid and is not on the body, and in which [generateFood]
    draws a cell that is off the grown body (the [k]-th cell it draws), the
    tick returns, for every fuel above [k], and adds exactly 1 to the score
    and exactly one segment to the body, puts the new food on a cell that no
    segment of the grown body occupies, and sets the tick interval to the old
    one minus [SPEED_DECREMENT], clamped so that it is not below
    [MIN_SPEED]. *)
Theorem tick_eats (random : nat -> Z) (app : App) (newHead : Coordinate)
    (k fuel : nat) :
  status (gameState app) = PLAYING ->
  newHeadOf app = Some newHead ->
  newHead = food (gameState app) ->
  inGrid newHead ->
  ~ In newHead (snake (gameState app)) ->
  isAtCoordinate (drawnCell random (randomPos app) k)
                 (newHead :: snake (gameState app)) = false ->
  (k < fuel)%nat ->
  exists app',
    tick random fuel app = Some app' /\
    status (gameState app') = PLAYING /\
    score (gameState app') = score (gameState app) + 1 /\
    List.length (snake (gameState app')) = S (List.length (snake (gameState app))) /\
    snake (gameState app') = newHead :: snake (gameState app) /\
    ~ In (food (gameState app')) (snake (gameState app')) /\
    speed (gameState app') = Z.max MIN_SPEED (speed (gameState app) - SPEED_DECREMENT) /\
    MIN_SPEED <= speed (gameState app') /\
    (MIN_SPEED <= speed (gameState app) - SPEED_DECREMENT ->
     speed (gameState app') = speed (gameState app) - SPEED_DECREMENT).
Proof.
  intros Hplaying Hnew Hfood Hgrid Hoff Hfree Hfuel. unfold newHeadOf in Hnew.
  destruct (snake (gameState app)) as [|head rest] eqn:Hsnake; [discriminate|].
  injection Hnew as <-. apply hitsWall_false in Hgrid.
  destruct (generateFood_complete random k _ _ fuel Hfree Hfuel) as [newFood [pos' Hgen]].
  destruct (generateFood_sound random _ _ _ _ _ Hgen) as [Hnot _].
  eexists. split.
  - apply (tick_eat_path random fuel app head rest Hplaying Hsnake newFood pos'
             Hgrid (fun H => False_ind _ (Hoff H)) Hfood Hgen).
  - cbn [gameState status score snake food speed List.length].
    repeat (split; [reflexivity|]).
    split; [apply isAtCoordinate_not_In, Hnot|].
    repeat split; lia.
Qed.

Lemma tick_eats_witness :
  exists app',
    tick (constantDraws 3) 1 feedingGame = Some app' /\
    status (gameState app') = PLAYING /\
    score (gameState app') = score (gameState feedingGame) + 1 /\
    List.length (snake (gameState app'))
      = S (List.length (snake (gameState feedingGame))) /\
    snake (gameState app') = mkCoordinate 10 9 :: snake (gameState feedingGame) /\
    ~ In (food (gameState app')) (snake (gameState app')) /\
    speed (gameState app')
      = Z.max MIN_SPEED (speed (gameState feedingGame) - SPEED_DECREMENT) /\
    MIN_SPEED <= speed (gameState app') /\
    (MIN_SPEED <= speed (gameState feedingGame) - SPEED_DECREMENT ->
     speed (gameState app') = speed (gameState feedingGame) - SPEED_DECREMENT).
Proof.
  apply (tick_eats (constantDraws 3) feedingGame (mkCoordinate 10 9) 0 1).
  - reflexivity.
  - reflexivity.
  - reflexivity.
  - unfold inGrid, GRID_SIZE. simpl. lia.
  - simpl. intuition discriminate.
  - reflexivity.
  - lia.
Defined.

(** The loop of [generateFood] has no bound: when the grown body covers
    every cell the random source can give, a tick that eats returns under no
    amount of fuel. *)
Lemma tick_eats_diverges (random : nat -> Z) (app : App) (newHead : Coordinate) :
  status (gameState app) = PLAYING ->
  newHeadOf app = Some newHead ->
  newHead = food (gameState app) ->
  inGrid newHead ->
  ~ In newHead (snake (gameState app)) ->
  (forall pos j, In (drawnCell random pos j) (newHead :: snake (gameState app))) ->
  forall fuel, tick random fuel app = None.
Proof.
  intros Hplaying Hnew Hfood Hgrid Hoff Hfull fuel. unfold newHeadOf in Hnew.
  destruct (snake (gameState app)) as [|head rest] eqn:Hsnake; [discriminate|].
  injection Hnew as <-. apply hitsWall_false in Hgrid.
  apply (tick_eat_out_of_fuel random fuel app head rest Hplaying Hsnake
           Hgrid (fun H => False_ind _ (Hoff H)) Hfood).
  apply generateFood_diverges. intros pos j. apply isAtCoordinate_In, Hfull.
Qed.

(** * The score ledger *)

(** What a tick does to the ledger: either the high score and the storage
    are untouched, and then the score did not pass the high score, or the
    score rose by one above the high score, the high score followed, and one
    call to [setItem] recorded it. *)
Lemma tick_ledger (random : nat -> Z) (fuel : nat) (app app' : App) :
  tick random fuel app = Some app' ->
  (highScore (gameState app') = highScore (gameState app) /\
   storageCalls app' = storageCalls app /\
   (score (gameState app') = score (gameState app) \/
    score (gameState app') = score (gameState app) + 1 /\
    score (gameState app') <= highScore (gameState app)))
  \/ (score (gameState app') = score (gameState app) + 1 /\
      highScore (gameState app) < score (gameState app') /\
      highScore (gameState app') = score (gameState app') /\
      storageCalls app' =
        storageCalls app
        ++ [("snake-highscore"%string, toString (score (gameState app')))]).
Proof.
  intros Htick.
  destruct (status (gameState app)) eqn:Hstatus;
    try (rewrite tick_guard_path in Htick by congruence;
         injection Htick as <-; left; auto).
  destruct (snake (gameState app)) as [|head rest] eqn:Hsnake.
  - rewrite (tick_empty_path random fuel app Hstatus Hsnake) in Htick.
    injection Htick as <-. left. cbn. auto.
  - destruct (tick_cases random fuel app app' head rest Hstatus Hsnake Htick)
      as [[_ ->] | [[_ [_ ->]] | [[_ [_ [_ [nf [p [_ ->]]]]]] | [_ [_ [_ ->]]]]]];
      try (left; cbn; auto; fail).
    cbn [gameState score highScore storageCalls].
    destruct (Z.gtb_spec (score (gameState app) + 1) (highScore (gameState app))).
    + right. repeat split; try reflexivity; lia.
    + left. split; [reflexivity|]. split; [reflexivity|]. right. split; [reflexivity|lia].
Qed.

(** What any event does to the ledger. *)
Lemma runOp_ledger (random : nat -> Z) (fuel : nat) (op : Op) (app app' : App) :
  runOp random fuel op app = Some app' ->
  (highScore (gameState app') = highScore (gameState app) /\
   storageCalls app' = storageCalls app)
  \/ (highScore (gameState app) < highScore (gameState app') /\
      storageCalls app' =
        storageCalls app
        ++ [("snake-highscore"%string, toString (highScore (gameState app')))]).
Proof.
  destruct op as [| | |newDir]; cbn [runOp]; intros Hrun.
  - destruct (tick_ledger random fuel app app' Hrun)
      as [[Hhs [Hcalls _]] | [_ [Hlt [Hhs Hcalls]]]].
    + left. split; assumption.
    + right. rewrite Hhs. split; [exact Hlt | exact Hcalls].
  - unfold startGame in Hrun.
    destruct (generateFood random fuel (randomPos app) INITIAL_SNAKE)
      as [[newFood pos']|]; [|discriminate].
    injection Hrun as <-. left. split; reflexivity.
  - injection Hrun as <-. left. unfold pauseGame.
    destruct (GameStatus_eqb (status (gameState app)) PLAYING); [split; reflexivity|].
    destruct (GameStatus_eqb (status (gameState app)) PAUSED); split; reflexivity.
  - injection Hrun as <-. left. unfold handleDirectionChange.
    destruct (isOpposite newDir (direction (gameState app))); split; reflexivity.
Qed.

(** C7. When the score after a tick exceeds the high score from before it
    (in a state of the ledger, where the score is not above the high score),
    the high score is raised to that score and [localStorage.setItem] is
    called exactly once, with that score; and over every event, and so over
    every run of events, the high score does not decrease, and the storage
    is written once when the high score rises and not at all otherwise. *)
Theorem highScore_ledger (random : nat -> Z) :
  (forall fuel app app',
     score (gameState app) <= highScore (gameState app) ->
     tick random fuel app = Some app' ->
     highScore (gameState app) < score (gameState app') ->
     highScore (gameState app') = score (gameState app') /\
     storageCalls app' =
       storageCalls app
       ++ [("snake-highscore"%string, toString (score (gameState app')))]) /\
  (forall fuel op app app',
     runOp random fuel op app = Some app' ->
     highScore (gameState app) <= highScore (gameState app') /\
     (highScore (gameState app') = highScore (gameState app) ->
      storageCalls app' = storageCalls app) /\
     (highScore (gameState app) < highScore (gameState app') ->
      storageCalls app' =
        storageCalls app
        ++ [("snake-highscore"%string, toString (highScore (gameState app')))])) /\
  (forall ops app app',
     runOps random ops app = Some app' ->
     highScore (gameState app) <= highScore (gameState app')).
Proof.
  split; [|split].
  - intros fuel app app' Hinv Htick Hexceeds.
    destruct (tick_ledger random fuel app app' Htick)
      as [[_ [_ [Hsame | [_ Hle]]]] | [_ [_ [Hhs Hcalls]]]]; try lia.
    split; assumption.
  - intros fuel op app app' Hrun.
    destruct (runOp_ledger random fuel op app app' Hrun)
      as [[Hhs Hcalls] | [Hlt Hcalls]].
    + split; [lia|]. split; [intros _; exact Hcalls | lia].
    + split; [lia|]. split; [lia | intros _; exact Hcalls].
  - intros ops. induction ops as [|[fuel op] ops IH]; intros app app' Hrun.
    + injection Hrun as <-. lia.
    + cbn [runOps] in Hrun.
      destruct (runOp random fuel op app) as [mid|] eqn:Hop; [|discriminate].
      destruct (runOp_ledger random fuel op app mid Hop) as [[Hhs _] | [Hlt _]];
        specialize (IH mid app' Hrun); lia.
Qed.

Lemma highScore_ledger_witness :
  exists app',
    tick (constantDraws 3) 1 feedingGame = Some app' /\
    highScore (gameState app') = score (gameState app') /\
    storageCalls app' = [("snake-highscore"%string, "1"%string)].
Proof.
  eexists. split; [vm_compute; reflexivity|].
  apply (proj1 (highScore_ledger (constantDraws 3)) 1%nat feedingGame).
  - simpl. lia.
  - vm_compute. reflexivity.
  - simpl. lia.
Defined.

(** After a call [setItem(key, value)] the storage holds [value] under
    [key]: the raised high score is what a later start of the component
    reads back. *)
Lemma getItem_last (init : string -> option string) (calls : list StorageCall)
    (key value : string) :
  getItem init (calls ++ [(key, value)]) key = Some value.
Proof.
  revert init. induction calls as [|[k v] calls IH]; intros init; cbn.
  - rewrite String.eqb_refl. reflexivity.
  - apply IH.
Qed.

(** * The invariant of the reachable states *)

Lemma wellFormed_fields (gs gs' : GameState) :
  snake gs' = snake gs -> food gs' = food gs ->
  score gs' = score gs -> highScore gs' = highScore gs ->
  wellFormed gs -> wellFormed gs'.
Proof.
  intros Hs Hf Hsc Hhs [H1 H2 H3 H4 H5].
  constructor; rewrite ?Hs, ?Hf, ?Hsc, ?Hhs; assumption.
Qed.

Lemma wellFormed_INITIAL_SNAKE (f : Coordinate) (hs : Z) (d : Direction)
    (st : GameStatus) (sp : Z) (r : option DeathReason) :
  ~ In f INITIAL_SNAKE -> 0 <= hs ->
  wellFormed {| snake := INITIAL_SNAKE; food := f; direction := d; score := 0;
                highScore := hs; status := st; speed := sp; deathReason := r |}.
Proof.
  intros Hf Hhs. constructor; cbn [snake food score highScore].
  - discriminate.
  - unfold INITIAL_SNAKE, inGrid, GRID_SIZE. repeat constructor; cbn; lia.
  - unfold INITIAL_SNAKE. repeat constructor; cbn; intuition discriminate.
  - exact Hf.
  - lia.
Qed.

(** The tick keeps the invariant. *)
Lemma tick_wellFormed (random : nat -> Z) (fuel : nat) (app app' : App) :
  wellFormed (gameState app) ->
  tick random fuel app = Some app' ->
  wellFormed (gameState app').
Proof.
  intros Hwf Htick.
  destruct (status (gameState app)) eqn:Hstatus;
    try (rewrite tick_guard_path in Htick by congruence;
         injection Htick as <-; exact Hwf).
  destruct (snake (gameState app)) as [|head rest] eqn:Hsnake.
  { destruct (wf_nonempty _ Hwf Hsnake). }
  destruct (tick_cases random fuel app app' head rest Hstatus Hsnake Htick)
    as [[_ ->] | [[_ [_ ->]]
       | [[Hgrid [Hfood [_ [nf [p [Hgen ->]]]]]] | [Hgrid [Hfood [Hpost ->]]]]]];
    try (apply (wellFormed_fields (gameState app)); [reflexivity .. | exact Hwf]).
  - destruct Hwf as [_ Hin Hnd Hf Hsc]. rewrite Hsnake in Hin, Hnd, Hf.
    apply generateFood_sound in Hgen. destruct Hgen as [Hoff _].
    constructor; cbn [gameState snake food score highScore].
    + discriminate.
    + constructor; assumption.
    + constructor; [rewrite Hfood; exact Hf | exact Hnd].
    + apply isAtCoordinate_not_In, Hoff.
    + destruct (Z.gtb_spec (score (gameState app) + 1) (highScore (gameState app))); lia.
  - destruct Hwf as [_ Hin Hnd Hf Hsc]. rewrite Hsnake in Hin, Hnd, Hf.
    constructor; cbn [gameState setGameState snake food score highScore].
    + discriminate.
    + constructor; [exact Hgrid | apply Forall_removelast, Hin].
    + constructor; [exact Hpost | apply NoDup_removelast, Hnd].
    + intros [Heq | Hrem]; [apply Hfood; exact Heq|].
      apply Hf, In_removelast, Hrem.
    + exact Hsc.
Qed.

(** Every event keeps the invariant. *)
Lemma runOp_wellFormed (random : nat -> Z) (fuel : nat) (op : Op) (app app' : App) :
  wellFormed (gameState app) ->
  runOp random fuel op app = Some app' ->
  wellFormed (gameState app').
Proof.
  intros Hwf. destruct op as [| | |newDir]; cbn [runOp]; intros Hrun.
  - apply (tick_wellFormed random fuel app app' Hwf Hrun).
  - unfold startGame in Hrun.
    destruct (generateFood random fuel (randomPos app) INITIAL_SNAKE)
      as [[newFood pos']|] eqn:Hgen; [|discriminate].
    injection Hrun as <-. cbn [gameState].
    apply generateFood_sound in Hgen. destruct Hgen as [Hoff _].
    apply wellFormed_INITIAL_SNAKE.
    + apply isAtCoordinate_not_In, Hoff.
    + pose proof (wf_score _ Hwf). lia.
  - injection Hrun as <-. unfold pauseGame.
    destruct (GameStatus_eqb (status (gameState app)) PLAYING);
      [apply (wellFormed_fields (gameState app)); [reflexivity .. | exact Hwf]|].
    destruct (GameStatus_eqb (status (gameState app)) PAUSED);
      [apply (wellFormed_fields (gameState app)); [reflexivity .. | exact Hwf]|].
    exact Hwf.
  - injection Hrun as <-. unfold handleDirectionChange.
    destruct (isOpposite newDir (direction (gameState app))); exact Hwf.
Qed.

(** The invariant holds in every state the component reaches. *)
Lemma reachable_wellFormed (random : nat -> Z) (app : App) :
  reachable random app -> wellFormed (gameState app).
Proof.
  induction 1 as [parsed Hparsed | app fuel op app' _ IH Hrun].
  - unfold initialApp. cbn [gameState INITIAL_STATE food direction score status
                            speed deathReason].
    apply wellFormed_INITIAL_SNAKE.
    + cbn. intuition discriminate.
    + destruct parsed as [n|]; [apply Hparsed; reflexivity | lia].
  - apply (runOp_wellFormed random fuel op app app' IH Hrun).
Qed.


(** * Food placement *)

(** X1. What [generateFood] returns is the first cell of the sequence of
    draws that is not under the snake: a cell off the snake, every earlier
    draw on it, two draws consumed per round. *)
Theorem generateFood_first_free_draw (random : nat -> Z) (fuel pos : nat)
    (body : list Coordinate) (newFood : Coordinate) (pos' : nat) :
  generateFood random fuel pos body = Some (newFood, pos') ->
  ~ In newFood body /\
  exists k,
    (k < fuel)%nat /\
    newFood = drawnCell random pos k /\
    pos' = (pos + 2 * S k)%nat /\
    forall j, (j < k)%nat -> In (drawnCell random pos j) body.
Proof.
  intros Hgen. destruct (generateFood_sound random _ _ _ _ _ Hgen)
    as [Hoff [k [Hk [Hf [Hp Hrej]]]]].
  split; [apply isAtCoordinate_not_In, Hoff|].
  exists k. repeat (split; [assumption|]).
  intros j Hj. apply isAtCoordinate_In, Hrej, Hj.
Qed.

Lemma generateFood_first_free_draw_witness :
  ~ In (mkCoordinate 12 13) INITIAL_SNAKE /\
  exists k,
    (k < 5)%nat /\
    mkCoordinate 12 13 = drawnCell countingDraws 0 k /\
    4%nat = (0 + 2 * S k)%nat /\
    forall j, (j < k)%nat -> In (drawnCell countingDraws 0 j) INITIAL_SNAKE.
Proof.
  apply (generateFood_first_free_draw countingDraws 5 0 INITIAL_SNAKE
           (mkCoordinate 12 13) 4).
  vm_compute. reflexivity.
Defined.

(** X2. [generateFood] returns as soon as a draw is off the snake: when the
    [k]-th drawn cell is free, every run with more than [k] rounds of fuel
    returns one and the same cell, off the snake. *)
Theorem generateFood_returns (random : nat -> Z) (pos k : nat)
    (body : list Coordinate) :
  ~ In (drawnCell random pos k) body ->
  exists newFood pos',
    ~ In newFood body /\
    forall fuel, (k < fuel)%nat ->
      generateFood random fuel pos body = Some (newFood, pos').
Proof.
  intros Hfree. apply isAtCoordinate_not_In in Hfree.
  destruct (generateFood_complete random k pos body (S k) Hfree (Nat.lt_succ_diag_r k))
    as [newFood [pos' Hgen]].
  exists newFood, pos'. split.
  - apply isAtCoordinate_not_In.
    apply (generateFood_sound random _ _ _ _ _ Hgen).
  - intros fuel Hfuel.
    apply (generateFood_fuel_mono random (S k) fuel pos body _ Hgen). lia.
Qed.

Lemma generateFood_returns_witness :
  exists newFood pos',
    ~ In newFood INITIAL_SNAKE /\
    forall fuel, (1 < fuel)%nat ->
      generateFood countingDraws fuel 0 INITIAL_SNAKE = Some (newFood, pos').
Proof.
  apply (generateFood_returns countingDraws 0 1 INITIAL_SNAKE).
  simpl. intuition discriminate.
Defined.

(** X3. [generateFood] has no exit but a free cell: when every cell the
    random source can give is under the snake (a full grid, for one), it
    returns under no amount of fuel. *)
Theorem generateFood_never_returns (random : nat -> Z) (body : list Coordinate) :
  (forall pos k, In (drawnCell random pos k) body) ->
  forall fuel pos, generateFood random fuel pos body = None.
Proof.
  intros Hfull. apply generateFood_diverges.
  intros pos k. apply isAtCoordinate_In, Hfull.
Qed.

Lemma generateFood_never_returns_witness :
  generateFood (constantDraws 3) 1000 0 [mkCoordinate 3 3] = None.
Proof.
  apply (generateFood_never_returns (constantDraws 3) [mkCoordinate 3 3]).
  intros pos k. simpl. left. reflexivity.
Defined.

(** * Starting and pausing *)

(** X4. [pauseGame] undoes itself: PLAYING goes to PAUSED and back, PAUSED
    to PLAYING and back, with every other field and the environment
    untouched, and IDLE and GAME_OVER are not changed at all. *)
Theorem pauseGame_involutive (app : App) :
  pauseGame (pauseGame app) = app /\
  (status (gameState app) = PLAYING ->
   status (gameState (pauseGame app)) = PAUSED) /\
  (status (gameState app) = PAUSED ->
   status (gameState (pauseGame app)) = PLAYING) /\
  (status (gameState app) = IDLE \/ status (gameState app) = GAME_OVER ->
   pauseGame app = app).
Proof.
  destruct app as [[sn fd dir sc hs st sp dr] nd calls pos].
  destruct st; cbn; repeat split; intros; try reflexivity; try discriminate;
    destruct H; discriminate.
Qed.

Lemma pauseGame_involutive_witness :
  status (gameState (pauseGame straightGame)) = PAUSED /\
  pauseGame crashedGame = crashedGame.
Proof.
  split.
  - apply (proj1 (proj2 (pauseGame_involutive straightGame))). reflexivity.
  - apply (proj2 (proj2 (proj2 (pauseGame_involutive crashedGame)))).
    right. reflexivity.
Defined.

(** X5. [startGame], from any state and as soon as a draw is off the initial
    snake, gives a fresh game: PLAYING, the initial snake, score 0, the
    initial speed, heading and pending heading UP, no death cause, food off
    the snake; only the high score is carried over, and the storage is not
    written. *)
Theorem startGame_fresh (random : nat -> Z) (app : App) (k fuel : nat) :
  ~ In (drawnCell random (randomPos app) k) INITIAL_SNAKE ->
  (k < fuel)%nat ->
  exists app',
    startGame random fuel app = Some app' /\
    status (gameState app') = PLAYING /\
    snake (gameState app') = INITIAL_SNAKE /\
    score (gameState app') = 0 /\
    speed (gameState app') = INITIAL_SPEED /\
    direction (gameState app') = UP /\
    nextDirection app' = UP /\
    deathReason (gameState app') = None /\
    ~ In (food (gameState app')) (snake (gameState app')) /\
    highScore (gameState app') = highScore (gameState app) /\
    storageCalls app' = storageCalls app.
Proof.
  intros Hfree Hfuel. apply isAtCoordinate_not_In in Hfree.
  destruct (generateFood_complete random k _ _ fuel Hfree Hfuel)
    as [newFood [pos' Hgen]].
  unfold startGame. rewrite Hgen. eexists. split; [reflexivity|].
  cbn [gameState status snake score speed direction nextDirection deathReason
       food highScore storageCalls].
  repeat (split; [reflexivity|]).
  split; [|split; reflexivity].
  apply isAtCoordinate_not_In. apply (generateFood_sound random _ _ _ _ _ Hgen).
Qed.

Lemma startGame_fresh_witness :
  exists app',
    startGame countingDraws 2 crashedGame = Some app' /\
    status (gameState app') = PLAYING /\
    snake (gameState app') = INITIAL_SNAKE /\
    score (gameState app') = 0 /\
    speed (gameState app') = INITIAL_SPEED /\
    direction (gameState app') = UP /\
    nextDirection app' = UP /\
    deathReason (gameState app') = None /\
    ~ In (food (gameState app')) (snake (gameState app')) /\
    highScore (gameState app') = highScore (gameState crashedGame) /\
    storageCalls app' = storageCalls crashedGame.
Proof.
  apply (startGame_fresh countingDraws crashedGame 1 2).
  - simpl. intuition discriminate.
  - lia.
Defined.

(** * What every reachable state satisfies *)

Lemma adjacent_stepHead (head : Coordinate) (dir : Direction) :
  adjacent (stepHead head dir) head.
Proof. unfold adjacent. destruct dir; cbn; lia. Qed.

Lemma contiguous_removelast (body : list Coordinate) :
  contiguous body -> contiguous (removelast body).
Proof.
  induction body as [|a body IH]; [trivial|].
  destruct body as [|b body]; [trivial|].
  intros [Hab Hrest]. rewrite removelast_cons2.
  destruct body as [|c body]; [exact I|].
  rewrite removelast_cons2 in *. split; [exact Hab | apply IH, Hrest].
Qed.

Lemma opposite_irrefl (dir : Direction) : dir <> opposite dir.
Proof. destruct dir; discriminate. Qed.

(** A step that undoes the step before it is a step in the opposite
    heading. *)
Lemma stepHead_back (neck : Coordinate) (dir dir' : Direction) :
  stepHead (stepHead neck dir) dir' = neck -> dir' = opposite dir.
Proof.
  destruct neck as [nx ny].
  destruct dir, dir'; cbn; intros H; try reflexivity; injection H; lia.
Qed.

Lemma consistent_playing_no_death (app : App) :
  consistent app -> status (gameState app) <> GAME_OVER ->
  deathReason (gameState app) = None.
Proof.
  intros Hc Hst. destruct (deathReason (gameState app)) eqn:E; [|reflexivity].
  exfalso. apply Hst. apply (cs_death _ Hc). rewrite E. discriminate.
Qed.

Lemma consistent_withDeath (app : App) (r : DeathReason) :
  consistent app -> consistent (setGameState app (withDeath (gameState app) r)).
Proof.
  intros [Hwf Hlen Hsp Hpe Hne Hco Hde Hst].
  constructor; cbn [gameState setGameState withDeath snake food score highScore
                    speed direction status deathReason nextDirection storageCalls];
    try assumption.
  - apply (wellFormed_fields (gameState app)); [reflexivity .. | exact Hwf].
  - split; [discriminate | reflexivity].
Qed.

Lemma consistent_withStatus (app : App) (s : GameStatus) :
  consistent app -> status (gameState app) <> GAME_OVER -> s <> GAME_OVER ->
  consistent (setGameState app (withStatus (gameState app) s)).
Proof.
  intros Hc Hst Hs. pose proof (consistent_playing_no_death app Hc Hst) as Hdr.
  destruct Hc as [Hwf Hlen Hsp Hpe Hne Hco Hde Hsto].
  constructor; cbn [gameState setGameState withStatus snake food score highScore
                    speed direction status deathReason nextDirection storageCalls];
    try assumption.
  - apply (wellFormed_fields (gameState app)); [reflexivity .. | exact Hwf].
  - rewrite Hdr. split; [intros H; contradiction | intros H; congruence].
Qed.

(** The tick keeps the component consistent. *)
Lemma tick_consistent (random : nat -> Z) (fuel : nat) (app app' : App) :
  consistent app ->
  tick random fuel app = Some app' ->
  consistent app'.
Proof.
  intros Hc Htick.
  pose proof (tick_wellFormed random fuel app app' (cs_wellFormed _ Hc) Htick) as Hwf'.
  destruct (status (gameState app)) eqn:Hstatus;
    try (rewrite tick_guard_path in Htick by congruence;
         injection Htick as <-; exact Hc).
  assert (Hdr : deathReason (gameState app) = None).
  { apply (consistent_playing_no_death app Hc). congruence. }
  destruct (snake (gameState app)) as [|head rest] eqn:Hsnake.
  { destruct (wf_nonempty _ (cs_wellFormed _ Hc) Hsnake). }
  destruct (tick_cases random fuel app app' head rest Hstatus Hsnake Htick)
    as [[_ ->] | [[_ [_ ->]]
       | [[Hgrid [Hfood [_ [nf [p [Hgen ->]]]]]] | [Hgrid [Hfood [Hpost ->]]]]]];
    try (apply consistent_withDeath; exact Hc).
  - destruct Hc as [_ Hlen Hsp Hpe Hne Hco Hde Hsto].
    rewrite Hsnake in Hlen, Hco.
    constructor; cbn [gameState snake food score highScore speed direction status
                      deathReason nextDirection storageCalls].
    + exact Hwf'.
    + cbn [List.length] in *. lia.
    + rewrite Hsp. unfold MIN_SPEED, INITIAL_SPEED, SPEED_DECREMENT. lia.
    + apply opposite_irrefl.
    + intros h n r Heq. injection Heq as <- <- _. reflexivity.
    + split; [apply adjacent_stepHead | exact Hco].
    + rewrite Hdr. split; [discriminate | congruence].
    + destruct (score (gameState app) + 1 >? highScore (gameState app)).
      * right. exists (storageCalls app). reflexivity.
      * exact Hsto.
  - destruct Hc as [_ Hlen Hsp Hpe Hne Hco Hde Hsto].
    rewrite Hsnake in Hlen, Hco.
    constructor; cbn [gameState setGameState snake food score highScore speed
                      direction status deathReason nextDirection storageCalls].
    + exact Hwf'.
    + cbn [List.length]. rewrite length_removelast_cons.
      cbn [List.length] in Hlen. lia.
    + exact Hsp.
    + apply opposite_irrefl.
    + intros h n r Heq. destruct rest as [|b rest]; [discriminate Heq|].
      rewrite removelast_cons2 in Heq. injection Heq as <- <- _. reflexivity.
    + destruct rest as [|b rest]; [exact I|].
      rewrite removelast_cons2. split; [apply adjacent_stepHead|].
      rewrite <- removelast_cons2. apply contiguous_removelast, Hco.
    + rewrite Hdr. split; [discriminate | congruence].
    + exact Hsto.
Qed.

(** Every event keeps the component consistent. *)
Lemma runOp_consistent (random : nat -> Z) (fuel : nat) (op : Op) (app app' : App) :
  consistent app ->
  runOp random fuel op app = Some app' ->
  consistent app'.
Proof.
  intros Hc. destruct op as [| | |newDir]; cbn [runOp]; intros Hrun.
  - apply (tick_consistent random fuel app app' Hc Hrun).
  - pose proof (runOp_wellFormed random fuel OpStartGame app app'
                  (cs_wellFormed _ Hc) Hrun) as Hwf'.
    unfold startGame in Hrun.
    destruct (generateFood random fuel (randomPos app) INITIAL_SNAKE)
      as [[newFood pos']|] eqn:Hgen; [|discriminate].
    injection Hrun as <-.
    constructor; cbn [gameState snake food score highScore speed direction status
                      deathReason nextDirection storageCalls].
    + exact Hwf'.
    + reflexivity.
    + reflexivity.
    + discriminate.
    + intros h n r Heq. injection Heq as <- <- _. reflexivity.
    + cbn. unfold adjacent. cbn. lia.
    + split; [discriminate | congruence].
    + exact (cs_storage _ Hc).
  - injection Hrun as <-. unfold pauseGame.
    destruct (status (gameState app)) eqn:Hst; cbn [GameStatus_eqb]; try exact Hc;
      apply consistent_withStatus; congruence.
  - injection Hrun as <-. unfold handleDirectionChange.
    destruct (isOpposite newDir (direction (gameState app))) eqn:Hopp; [exact Hc|].
    destruct Hc as [Hwf Hlen Hsp Hpe Hne Hco Hde Hsto].
    constructor; cbn [gameState nextDirection storageCalls]; try assumption.
    intros Heq. apply isOpposite_opposite in Heq. congruence.
Qed.

(** The component is consistent in every state it reaches. *)
Lemma reachable_consistent (random : nat -> Z) (app : App) :
  reachable random app -> consistent app.
Proof.
  induction 1 as [parsed Hparsed | app fuel op app' Hreach IH Hrun].
  - constructor; cbn [initialApp gameState snake food score highScore speed
                      direction status deathReason nextDirection storageCalls
                      INITIAL_STATE].
    + exact (reachable_wellFormed random (initialApp parsed)
               (reachable_init random parsed Hparsed)).
    + reflexivity.
    + reflexivity.
    + discriminate.
    + intros h n r Heq. injection Heq as <- <- _. reflexivity.
    + cbn. unfold adjacent. cbn. lia.
    + split; [discriminate | congruence].
    + left. reflexivity.
  - apply (runOp_consistent random fuel op app app' IH Hrun).
Qed.

Lemma runOps_reachable (random : nat -> Z) (ops : list (nat * Op)) :
  forall app app',
    reachable random app -> runOps random ops app = Some app' ->
    reachable random app'.
Proof.
  induction ops as [|[fuel op] ops IH]; intros app app' Hreach Hrun.
  - injection Hrun as <-. exact Hreach.
  - cbn [runOps] in Hrun.
    destruct (runOp random fuel op app) as [mid|] eqn:Hop; [|discriminate].
    apply (IH mid app'); [|exact Hrun].
    apply (reachable_step random app fuel op mid Hreach Hop).
Qed.

Lemma sampleGame_reachable : reachable scriptedDraws sampleGame.
Proof.
  apply (runOps_reachable scriptedDraws sampleRun (initialApp None)).
  - apply reachable_init. discriminate.
  - vm_compute. reflexivity.
Qed.

Lemma scriptedDraws_range (n : nat) : 0 <= scriptedDraws n < GRID_SIZE.
Proof.
  unfold scriptedDraws, GRID_SIZE.
  do 7 (destruct n as [|n]; [cbn; lia|]). cbn. lia.
Qed.

(** X6. In every state the component reaches, the body is not empty, every
    segment is on the grid, no two segments share a cell, the food is not
    under the body, and the score is between 0 and the high score. *)
Theorem reachable_data_model (random : nat -> Z) (app : App) :
  reachable random app ->
  snake (gameState app) <> [] /\
  Forall inGrid (snake (gameState app)) /\
  NoDup (snake (gameState app)) /\
  ~ In (food (gameState app)) (snake (gameState app)) /\
  0 <= score (gameState app) <= highScore (gameState app).
Proof.
  intros Hreach. destruct (reachable_wellFormed random app Hreach) as [H1 H2 H3 H4 H5].
  repeat split; assumption || apply H5.
Qed.

Lemma reachable_data_model_witness :
  snake (gameState sampleGame) <> [] /\
  Forall inGrid (snake (gameState sampleGame)) /\
  NoDup (snake (gameState sampleGame)) /\
  ~ In (food (gameState sampleGame)) (snake (gameState sampleGame)) /\
  0 <= score (gameState sampleGame) <= highScore (gameState sampleGame).
Proof.
  apply (reachable_data_model scriptedDraws sampleGame sampleGame_reachable).
Defined.

(** X7. In every state the component reaches, the score counts the growth
    of the body (the body has 3 + score segments) and fixes the tick
    interval: INITIAL_SPEED less SPEED_DECREMENT per point, not below
    MIN_SPEED; so the interval stays between MIN_SPEED and INITIAL_SPEED. *)
Theorem reachable_score_length_speed (random : nat -> Z) (app : App) :
  reachable random app ->
  Z.of_nat (List.length (snake (gameState app))) = 3 + score (gameState app) /\
  speed (gameState app)
    = Z.max MIN_SPEED (INITIAL_SPEED - SPEED_DECREMENT * score (gameState app)) /\
  MIN_SPEED <= speed (gameState app) <= INITIAL_SPEED.
Proof.
  intros Hreach. pose proof (reachable_consistent random app Hreach) as Hc.
  pose proof (wf_score _ (cs_wellFormed _ Hc)) as Hsc.
  split; [exact (cs_length _ Hc)|]. split; [exact (cs_speed _ Hc)|].
  rewrite (cs_speed _ Hc). unfold MIN_SPEED, INITIAL_SPEED, SPEED_DECREMENT. lia.
Qed.

Lemma reachable_score_length_speed_witness :
  Z.of_nat (List.length (snake (gameState sampleGame)))
    = 3 + score (gameState sampleGame) /\
  speed (gameState sampleGame)
    = Z.max MIN_SPEED
        (INITIAL_SPEED - SPEED_DECREMENT * score (gameState sampleGame)) /\
  MIN_SPEED <= speed (gameState sampleGame) <= INITIAL_SPEED.
Proof.
  apply (reachable_score_length_speed scriptedDraws sampleGame sampleGame_reachable).
Defined.

(** X8. In every state the component reaches, the pending heading is not
    the reverse of the current heading, and the cell the head moves to at the
    next tick is not the cell of the second segment: the snake never turns
    back into its neck. *)
Theorem reachable_never_reverses (random : nat -> Z) (app : App) :
  reachable random app ->
  nextDirection app <> opposite (direction (gameState app)) /\
  forall head neck rest,
    snake (gameState app) = head :: neck :: rest ->
    stepHead head (nextDirection app) <> neck.
Proof.
  intros Hreach. pose proof (reachable_consistent random app Hreach) as Hc.
  split; [exact (cs_pending _ Hc)|].
  intros head neck rest Hsnake Hback.
  rewrite (cs_neck _ Hc head neck rest Hsnake) in Hback.
  apply (cs_pending _ Hc), (stepHead_back neck), Hback.
Qed.

Lemma reachable_never_reverses_witness :
  nextDirection sampleGame <> opposite (direction (gameState sampleGame)) /\
  forall head neck rest,
    snake (gameState sampleGame) = head :: neck :: rest ->
    stepHead head (nextDirection sampleGame) <> neck.
Proof.
  apply (reachable_never_reverses scriptedDraws sampleGame sampleGame_reachable).
Defined.

(** X9. In every state the component reaches, the body is contiguous:
    every segment is on a cell that shares a side with the cell of the
    segment before it. *)
Theorem reachable_body_contiguous (random : nat -> Z) (app : App) :
  reachable random app -> contiguous (snake (gameState app)).
Proof.
  intros Hreach. exact (cs_contiguous _ (reachable_consistent random app Hreach)).
Qed.

Lemma reachable_body_contiguous_witness :
  contiguous (snake (gameState sampleGame)).
Proof.
  apply (reachable_body_contiguous scriptedDraws sampleGame sampleGame_reachable).
Defined.

(** X10. In every state the component reaches, a death cause is recorded
    exactly when the status is GAME_OVER: IDLE, PLAYING and PAUSED states
    carry none, and a finished game always carries one. *)
Theorem reachable_death_recorded (random : nat -> Z) (app : App) :
  reachable random app ->
  (status (gameState app) = GAME_OVER <-> deathReason (gameState app) <> None).
Proof.
  intros Hreach. exact (cs_death _ (reachable_consistent random app Hreach)).
Qed.

Lemma reachable_death_recorded_witness :
  status (gameState sampleGame) = GAME_OVER
  <-> deathReason (gameState sampleGame) <> None.
Proof.
  apply (reachable_death_recorded scriptedDraws sampleGame sampleGame_reachable).
Defined.

(** X11. In every state the component reaches, once [localStorage.setItem]
    has been called the item "snake-highscore" holds the decimal text of the
    current high score, whatever the storage held at first. *)
Theorem reachable_storage_in_sync (random : nat -> Z) (app : App)
    (init : string -> option string) :
  reachable random app ->
  storageCalls app <> [] ->
  getItem init (storageCalls app) "snake-highscore"
  = Some (toString (highScore (gameState app))).
Proof.
  intros Hreach Hcalls.
  destruct (cs_storage _ (reachable_consistent random app Hreach))
    as [Hnone | [calls Heq]]; [contradiction|].
  rewrite Heq. apply getItem_last.
Qed.

Lemma reachable_storage_in_sync_witness :
  getItem (fun _ => None) (storageCalls sampleGame) "snake-highscore"
  = Some "2"%string.
Proof.
  apply (reachable_storage_in_sync scriptedDraws sampleGame (fun _ => None)
           sampleGame_reachable).
  vm_compute. discriminate.
Defined.

(** The food of the next state is the food of this one or a drawn cell. *)
Lemma runOp_food (random : nat -> Z) (fuel : nat) (op : Op) (app app' : App) :
  runOp random fuel op app = Some app' ->
  food (gameState app') = food (gameState app) \/
  exists pos k, food (gameState app') = drawnCell random pos k.
Proof.
  destruct op as [| | |newDir]; cbn [runOp]; intros Hrun.
  - destruct (status (gameState app)) eqn:Hstatus;
      try (rewrite tick_guard_path in Hrun by congruence;
           injection Hrun as <-; left; reflexivity).
    destruct (snake (gameState app)) as [|head rest] eqn:Hsnake.
    + rewrite (tick_empty_path random fuel app Hstatus Hsnake) in Hrun.
      injection Hrun as <-. left. reflexivity.
    + destruct (tick_cases random fuel app app' head rest Hstatus Hsnake Hrun)
        as [[_ ->] | [[_ [_ ->]] | [[_ [_ [_ [nf [p [Hgen ->]]]]]] | [_ [_ [_ ->]]]]]];
        try (left; reflexivity).
      right. destruct (generateFood_sound random _ _ _ _ _ Hgen) as [_ [k [_ [Hf _]]]].
      exists (randomPos app), k. exact Hf.
  - unfold startGame in Hrun.
    destruct (generateFood random fuel (randomPos app) INITIAL_SNAKE)
      as [[newFood pos']|] eqn:Hgen; [|discriminate].
    injection Hrun as <-. right.
    destruct (generateFood_sound random _ _ _ _ _ Hgen) as [_ [k [_ [Hf _]]]].
    exists (randomPos app), k. exact Hf.
  - injection Hrun as <-. left. unfold pauseGame.
    destruct (GameStatus_eqb (status (gameState app)) PLAYING); [reflexivity|].
    destruct (GameStatus_eqb (status (gameState app)) PAUSED); reflexivity.
  - injection Hrun as <-. left. unfold handleDirectionChange.
    destruct (isOpposite newDir (direction (gameState app))); reflexivity.
Qed.

(** X12. When every draw [Math.floor(Math.random() * GRID_SIZE)] is in
    [[0, GRID_SIZE)], the food is on the grid in every state the component
    reaches. *)
Theorem reachable_food_inGrid (random : nat -> Z) (app : App) :
  (forall n, 0 <= random n < GRID_SIZE) ->
  reachable random app ->
  inGrid (food (gameState app)).
Proof.
  intros Hrange. induction 1 as [parsed _ | app fuel op app' _ IH Hrun].
  - unfold inGrid, GRID_SIZE. cbn. lia.
  - destruct (runOp_food random fuel op app app' Hrun) as [-> | [pos [k ->]]];
      [exact IH|].
    unfold inGrid, drawnCell. cbn [x y]. split; apply Hrange.
Qed.

Lemma reachable_food_inGrid_witness : inGrid (food (gameState sampleGame)).
Proof.
  apply (reachable_food_inGrid scriptedDraws sampleGame).
  - intros n. apply scriptedDraws_range.
  - exact sampleGame_reachable.
Defined.

(** X13. In every state the component reaches, the speed shown in the
    header is the score plus 5, up to 50: it starts at 5, rises by one with
    each point and stops at 50, when the tick interval has reached
    MIN_SPEED. *)
Theorem reachable_speedLevel (random : nat -> Z) (app : App) :
  reachable random app ->
  speedLevel (gameState app) = Z.min (score (gameState app) + 5) 50.
Proof.
  intros Hreach. pose proof (reachable_consistent random app Hreach) as Hc.
  pose proof (wf_score _ (cs_wellFormed _ Hc)) as Hsc.
  unfold speedLevel. rewrite (cs_speed _ Hc).
  unfold MIN_SPEED, INITIAL_SPEED, SPEED_DECREMENT.
  destruct (Z.max_spec 60 (150 - 2 * score (gameState app))) as [[Hlt ->] | [Hle ->]].
  - replace (150 - (150 - 2 * score (gameState app)) + 10)
      with ((score (gameState app) + 5) * 2) by lia.
    rewrite Z.div_mul by lia. lia.
  - change ((150 - 60 + 10) / 2) with 50. lia.
Qed.

Lemma reachable_speedLevel_witness :
  speedLevel (gameState sampleGame) = Z.min (score (gameState sampleGame) + 5) 50.
Proof.
  apply (reachable_speedLevel scriptedDraws sampleGame sampleGame_reachable).
Defined.

(** X14. In every state the component reaches, the game-over modal shows
    "New High Score!" exactly when the score is positive and equal to the
    high score; this includes a game that only ties a high score read from
    the storage, for which nothing is written. *)
Theorem reachable_showsNewHighScore (random : nat -> Z) (app : App) :
  reachable random app ->
  (showsNewHighScore (gameState app) = true <->
   0 < score (gameState app) /\ score (gameState app) = highScore (gameState app)).
Proof.
  intros Hreach. pose proof (reachable_wellFormed random app Hreach) as Hwf.
  pose proof (wf_score _ Hwf) as Hsc. unfold showsNewHighScore.
  rewrite andb_true_iff, Z.geb_le, Z.gtb_ltb, Z.ltb_lt. lia.
Qed.

Lemma tiedGame_reachable : reachable scriptedDraws tiedGame.
Proof.
  apply (runOps_reachable scriptedDraws
           [(1%nat, OpStartGame); (1%nat, OpTick)] (initialApp (Some 1))).
  - apply reachable_init. intros n Hn. injection Hn as <-. lia.
  - vm_compute. reflexivity.
Qed.

Lemma reachable_showsNewHighScore_witness :
  storageCalls tiedGame = [] /\
  showsNewHighScore (gameState tiedGame) = true.
Proof.
  split; [reflexivity|].
  apply (proj2 (reachable_showsNewHighScore scriptedDraws tiedGame
                  tiedGame_reachable)).
  simpl. lia.
Defined.

(** * More on the tick *)

Lemma In_only_last {A : Type} (c d : A) (l : list A) :
  In c l -> ~ In c (removelast l) -> c = last l d.
Proof.
  intros Hin Hnot. destruct l as [|a l]; [destruct Hin|].
  assert (Hne : a :: l <> []) by discriminate.
  rewrite (app_removelast_last d Hne) in Hin.
  apply in_app_or in Hin. destruct Hin as [Hin | [Heq | []]];
    [contradiction | symmetry; exact Heq].
Qed.

(** On a body that does not overlap itself, the post-pop check finds
    nothing: a self death comes from the pre-check, with the new head on a
    cell other than the cell of the tail. *)
Lemma tick_self_death_cause (random : nat -> Z) (fuel : nat) (app : App)
    (head : Coordinate) (rest : list Coordinate) :
  status (gameState app) = PLAYING ->
  snake (gameState app) = head :: rest ->
  NoDup (head :: rest) ->
  tick random fuel app = Some (setGameState app (withDeath (gameState app) SELF)) ->
  stepHead head (nextDirection app) <> last (head :: rest) head.
Proof.
  intros Hplaying Hsnake Hnd Htick Htail.
  assert (Hpost : ~ In (stepHead head (nextDirection app)) (removelast (head :: rest))).
  { rewrite Htail. apply NoDup_last_not_removelast; [discriminate | exact Hnd]. }
  destruct (hitsWall (stepHead head (nextDirection app))) eqn:Hwall.
  { rewrite (tick_wall_path random fuel app head rest Hplaying Hsnake Hwall) in Htick.
    discriminate. }
  destruct (Coordinate_eqb (stepHead head (nextDirection app))
              (food (gameState app))) eqn:Hfood.
  - apply Coordinate_eqb_eq in Hfood.
    destruct (generateFood random fuel (randomPos app)
                (stepHead head (nextDirection app) :: head :: rest))
      as [[newFood pos']|] eqn:Hgen.
    + rewrite (tick_eat_path random fuel app head rest Hplaying Hsnake newFood pos'
                 Hwall (fun _ => Htail) Hfood Hgen) in Htick.
      discriminate.
    + rewrite (tick_eat_out_of_fuel random fuel app head rest Hplaying Hsnake
                 Hwall (fun _ => Htail) Hfood Hgen) in Htick.
      discriminate.
  - apply Coordinate_eqb_neq in Hfood.
    rewrite (tick_slide_path random fuel app head rest Hplaying Hsnake
               Hwall (fun _ => Htail) Hfood Hpost) in Htick.
    discriminate.
Qed.

(** X15. For a PLAYING state whose body does not overlap itself, the
    outcome of a tick is decided by the new head cell alone: GAME_OVER with
    cause WALL exactly when it is off the grid, GAME_OVER with cause SELF
    exactly when it is on the grid and on a body cell other than the cell of
    the tail, and PLAYING in every other case. *)
Theorem tick_outcome (random : nat -> Z) (fuel : nat) (app app' : App)
    (head : Coordinate) (rest : list Coordinate) :
  status (gameState app) = PLAYING ->
  snake (gameState app) = head :: rest ->
  NoDup (snake (gameState app)) ->
  tick random fuel app = Some app' ->
  (status (gameState app') = GAME_OVER /\ deathReason (gameState app') = Some WALL
   <-> ~ inGrid (stepHead head (nextDirection app))) /\
  (status (gameState app') = GAME_OVER /\ deathReason (gameState app') = Some SELF
   <-> inGrid (stepHead head (nextDirection app)) /\
       In (stepHead head (nextDirection app)) (head :: rest) /\
       stepHead head (nextDirection app) <> last (head :: rest) head) /\
  (status (gameState app') = PLAYING
   <-> inGrid (stepHead head (nextDirection app)) /\
       (In (stepHead head (nextDirection app)) (head :: rest) ->
        stepHead head (nextDirection app) = last (head :: rest) head)).
Proof.
  intros Hplaying Hsnake Hnd Htick. rewrite Hsnake in Hnd.
  destruct (tick_cases random fuel app app' head rest Hplaying Hsnake Htick)
    as [[Hout Heq] | [[Hgrid [Hin Heq]]
       | [[Hgrid [Hfood [Hpre [nf [p [Hgen Heq]]]]]] | [Hgrid [Hfood [Hpost Heq]]]]]].
  - subst app'. cbn [gameState setGameState withDeath status deathReason].
    intuition congruence.
  - assert (Hnt : stepHead head (nextDirection app) <> last (head :: rest) head).
    { apply (tick_self_death_cause random fuel app head rest Hplaying Hsnake Hnd).
      rewrite Htick, Heq. reflexivity. }
    subst app'. cbn [gameState setGameState withDeath status deathReason].
    intuition congruence.
  - subst app'. cbn [gameState status deathReason].
    intuition congruence.
  - assert (Hpre : In (stepHead head (nextDirection app)) (head :: rest) ->
                   stepHead head (nextDirection app) = last (head :: rest) head).
    { intros Hin. apply In_only_last; assumption. }
    subst app'. cbn [gameState setGameState status deathReason].
    intuition congruence.
Qed.

Lemma tick_outcome_witness :
  status (gameState (setGameState bitingGame (withDeath (gameState bitingGame) SELF)))
    = GAME_OVER /\
  deathReason (gameState (setGameState bitingGame (withDeath (gameState bitingGame) SELF)))
    = Some SELF.
Proof.
  apply (proj2 (proj1 (proj2
           (tick_outcome (constantDraws 3) 0 bitingGame
              (setGameState bitingGame (withDeath (gameState bitingGame) SELF))
              (mkCoordinate 5 5)
              [mkCoordinate 4 5; mkCoordinate 4 6; mkCoordinate 5 6; mkCoordinate 6 6]
              eq_refl eq_refl
              ltac:(simpl; repeat constructor; simpl; intuition discriminate)
              eq_refl)))).
  split; [unfold inGrid, GRID_SIZE; simpl; lia|].
  split; [simpl; auto | simpl; discriminate].
Defined.

(** X16. A tick changes the score by 0 or by 1, and a tick that leaves the
    score as it was leaves the food, the tick interval, the high score, the
    storage and the random source as they were: placing food, speeding up,
    raising and saving the high score happen only together with a point. *)
Theorem tick_without_point (random : nat -> Z) (fuel : nat) (app app' : App) :
  tick random fuel app = Some app' ->
  (score (gameState app') = score (gameState app) \/
   score (gameState app') = score (gameState app) + 1) /\
  (score (gameState app') = score (gameState app) ->
   food (gameState app') = food (gameState app) /\
   speed (gameState app') = speed (gameState app) /\
   highScore (gameState app') = highScore (gameState app) /\
   storageCalls app' = storageCalls app /\
   randomPos app' = randomPos app).
Proof.
  intros Htick.
  destruct (status (gameState app)) eqn:Hstatus;
    try (rewrite tick_guard_path in Htick by congruence;
         injection Htick as <-; split; [left; reflexivity | intros _; repeat split]).
  destruct (snake (gameState app)) as [|head rest] eqn:Hsnake.
  - rewrite (tick_empty_path random fuel app Hstatus Hsnake) in Htick.
    injection Htick as <-. split; [left; reflexivity | intros _; repeat split].
  - destruct (tick_cases random fuel app app' head rest Hstatus Hsnake Htick)
      as [[_ ->] | [[_ [_ ->]] | [[_ [_ [_ [nf [p [_ ->]]]]]] | [_ [_ [_ ->]]]]]];
      try (split; [left; reflexivity | intros _; repeat split]).
    cbn [gameState score]. split; [right; reflexivity | intros H; lia].
Qed.

Lemma tick_without_point_witness :
  (score (gameState (setGameState edgeGame (withDeath (gameState edgeGame) WALL)))
     = score (gameState edgeGame) \/
   score (gameState (setGameState edgeGame (withDeath (gameState edgeGame) WALL)))
     = score (gameState edgeGame) + 1) /\
  (score (gameState (setGameState edgeGame (withDeath (gameState edgeGame) WALL)))
     = score (gameState edgeGame) ->
   food (gameState (setGameState edgeGame (withDeath (gameState edgeGame) WALL)))
     = food (gameState edgeGame) /\
   speed (gameState (setGameState edgeGame (withDeath (gameState edgeGame) WALL)))
     = speed (gameState edgeGame) /\
   highScore (gameState (setGameState edgeGame (withDeath (gameState edgeGame) WALL)))
     = highScore (gameState edgeGame) /\
   storageCalls (setGameState edgeGame (withDeath (gameState edgeGame) WALL))
     = storageCalls edgeGame /\
   randomPos (setGameState edgeGame (withDeath (gameState edgeGame) WALL))
     = randomPos edgeGame).
Proof.
  apply (tick_without_point (constantDraws 3) 0 edgeGame).
  vm_compute. reflexivity.
Defined.

(** X17. A tick that a game in progress survives moves the head one cell
    in the pending heading and makes that heading the current one; the body
    follows it: with a point, the old body stays whole behind the new head
    (which was on the food); without one, the old body less its last segment
    does (and the new head was not on the food). *)
Theorem tick_survivor_shape (random : nat -> Z) (fuel : nat) (app app' : App)
    (head : Coordinate) (rest : list Coordinate) :
  status (gameState app) = PLAYING ->
  snake (gameState app) = head :: rest ->
  tick random fuel app = Some app' ->
  status (gameState app') = PLAYING ->
  direction (gameState app') = nextDirection app /\
  nextDirection app' = nextDirection app /\
  adjacent (stepHead head (nextDirection app)) head /\
  ((score (gameState app') = score (gameState app) + 1 /\
    stepHead head (nextDirection app) = food (gameState app) /\
    snake (gameState app') = stepHead head (nextDirection app) :: head :: rest)
   \/
   (score (gameState app') = score (gameState app) /\
    stepHead head (nextDirection app) <> food (gameState app) /\
    snake (gameState app')
      = stepHead head (nextDirection app) :: removelast (head :: rest))).
Proof.
  intros Hplaying Hsnake Htick Halive.
  destruct (tick_cases random fuel app app' head rest Hplaying Hsnake Htick)
    as [[_ ->] | [[_ [_ ->]]
       | [[_ [Hfood [_ [nf [p [_ ->]]]]]] | [_ [Hfood [_ ->]]]]]];
    try discriminate Halive.
  - repeat (split; [reflexivity || apply adjacent_stepHead|]).
    left. repeat split. exact Hfood.
  - repeat (split; [reflexivity || apply adjacent_stepHead|]).
    right. repeat split. exact Hfood.
Qed.

Lemma tick_survivor_shape_witness :
  exists app',
    tick (constantDraws 3) 0 chasingGame = Some app' /\
    direction (gameState app') = DOWN /\
    snake (gameState app')
      = [mkCoordinate 5 6; mkCoordinate 5 5; mkCoordinate 6 5; mkCoordinate 6 6].
Proof.
  eexists. split; [vm_compute; reflexivity|].
  destruct (tick_survivor_shape (constantDraws 3) 0 chasingGame _
              (mkCoordinate 5 5)
              [mkCoordinate 6 5; mkCoordinate 6 6; mkCoordinate 5 6]
              eq_refl eq_refl eq_refl eq_refl) as [Hdir _].
  split; [exact Hdir | reflexivity].
Defined.

(** X18. The tick inherits the unbounded loop of [generateFood]: when the
    snake eats and every cell the random source can give is under the grown
    body (a body that fills the grid, for one), the tick returns under no
    amount of fuel. *)
Theorem tick_eats_never_returns (random : nat -> Z) (app : App)
    (newHead : Coordinate) :
  status (gameState app) = PLAYING ->
  newHeadOf app = Some newHead ->
  newHead = food (gameState app) ->
  inGrid newHead ->
  ~ In newHead (snake (gameState app)) ->
  (forall pos j, In (drawnCell random pos j) (newHead :: snake (gameState app))) ->
  forall fuel, tick random fuel app = None.
Proof.
  intros Hplaying Hnew Hfood Hgrid Hoff Hfull.
  apply (tick_eats_diverges random app newHead Hplaying Hnew Hfood Hgrid Hoff Hfull).
Qed.

Lemma tick_eats_never_returns_witness :
  tick (constantDraws 3) 1000 crowdedGame = None.
Proof.
  apply (tick_eats_never_returns (constantDraws 3) crowdedGame (mkCoordinate 3 3)).
  - reflexivity.
  - reflexivity.
  - reflexivity.
  - unfold inGrid, GRID_SIZE. simpl. lia.
  - simpl. intuition discriminate.
  - intros pos j. simpl. left. reflexivity.
Defined.

(** X19. A game that is not running stays as it is until it is started:
    in IDLE and in GAME_OVER every event other than [startGame] returns and
    leaves the game state, the storage and the random source unchanged, so
    that only the pending heading can move. *)
Theorem idle_and_over_frozen (random : nat -> Z) (fuel : nat) (op : Op) (app : App) :
  status (gameState app) = IDLE \/ status (gameState app) = GAME_OVER ->
  op <> OpStartGame ->
  exists app',
    runOp random fuel op app = Some app' /\
    gameState app' = gameState app /\
    storageCalls app' = storageCalls app /\
    randomPos app' = randomPos app.
Proof.
  intros Hstatus Hop. destruct op as [| | |newDir]; cbn [runOp].
  - exists app. split; [|repeat split].
    apply tick_guard_path. destruct Hstatus as [-> | ->]; discriminate.
  - contradiction.
  - exists app. split; [|repeat split]. unfold pauseGame.
    destruct Hstatus as [-> | ->]; reflexivity.
  - eexists. split; [reflexivity|]. unfold handleDirectionChange.
    destruct (isOpposite newDir (direction (gameState app))); repeat split.
Qed.

Lemma idle_and_over_frozen_witness :
  exists app',
    runOp (constantDraws 3) 0 OpTick crashedGame = Some app' /\
    gameState app' = gameState crashedGame /\
    storageCalls app' = storageCalls crashedGame /\
    randomPos app' = randomPos crashedGame.
Proof.
  apply (idle_and_over_frozen (constantDraws 3) 0 OpTick crashedGame).
  - right. reflexivity.
  - discriminate.
Defined.

(** * The keyboard and the swipes *)

(** A key press does nothing, or acts as one of the events of the
    component; it starts a game only from IDLE or GAME_OVER. *)
Lemma handleKeyDown_op (random : nat -> Z) (fuel : nat) (key : string) (app : App) :
  handleKeyDown random fuel key app = Some app \/
  exists op,
    handleKeyDown random fuel key app = runOp random fuel op app /\
    op <> OpTick /\
    (op = OpStartGame ->
     status (gameState app) = IDLE \/ status (gameState app) = GAME_OVER).
Proof.
  unfold handleKeyDown. cbv zeta.
  repeat match goal with
         | |- context [if ?c then _ else _] =>
             lazymatch c with
             | context [String.eqb] => destruct c
             end
         end;
    try (left; reflexivity);
    try (right; eexists (OpDirectionChange _); split; [reflexivity|];
         split; [discriminate | intros H; discriminate H]).
  destruct (status (gameState app)) eqn:Hstatus; cbn [GameStatus_eqb orb];
    right.
  - exists OpStartGame. split; [reflexivity|]. split; [discriminate | auto].
  - exists OpPauseGame. split; [reflexivity|].
    split; [discriminate | intros H; discriminate H].
  - exists OpPauseGame. split; [reflexivity|].
    split; [discriminate | intros H; discriminate H].
  - exists OpStartGame. split; [reflexivity|]. split; [discriminate | auto].
Qed.

(** X20. Key presses keep the component among its reachable states: what
    holds of every reachable state holds after any key. *)
Theorem handleKeyDown_keeps_reachable (random : nat -> Z) (fuel : nat)
    (key : string) (app app' : App) :
  reachable random app ->
  handleKeyDown random fuel key app = Some app' ->
  reachable random app'.
Proof.
  intros Hreach Hkey.
  destruct (handleKeyDown_op random fuel key app) as [Hsame | [op [Hop _]]].
  - rewrite Hsame in Hkey. injection Hkey as <-. exact Hreach.
  - rewrite Hop in Hkey. apply (reachable_step random app fuel op app' Hreach Hkey).
Qed.

Lemma handleKeyDown_keeps_reachable_witness :
  reachable scriptedDraws (pauseGame sampleGame).
Proof.
  apply (handleKeyDown_keeps_reachable scriptedDraws 0 " " sampleGame).
  - exact sampleGame_reachable.
  - vm_compute. reflexivity.
Defined.

(** X21. No key resets a game that is PLAYING or PAUSED: every key press
    returns, whatever the fuel, and leaves the snake, the food, the score,
    the tick interval, the high score, the current heading, the storage and
    the random source as they were; the space bar only toggles between
    PLAYING and PAUSED. *)
Theorem handleKeyDown_never_restarts (random : nat -> Z) (fuel : nat)
    (key : string) (app : App) :
  status (gameState app) = PLAYING \/ status (gameState app) = PAUSED ->
  exists app',
    handleKeyDown random fuel key app = Some app' /\
    snake (gameState app') = snake (gameState app) /\
    food (gameState app') = food (gameState app) /\
    score (gameState app') = score (gameState app) /\
    speed (gameState app') = speed (gameState app) /\
    highScore (gameState app') = highScore (gameState app) /\
    direction (gameState app') = direction (gameState app) /\
    storageCalls app' = storageCalls app /\
    randomPos app' = randomPos app /\
    (status (gameState app') = PLAYING \/ status (gameState app') = PAUSED).
Proof.
  intros Hstatus.
  destruct (handleKeyDown_op random fuel key app) as [Hsame | [op [Hop [Hnt Hstart]]]].
  - exists app. split; [exact Hsame|]. repeat split. exact Hstatus.
  - rewrite Hop. destruct op as [| | |newDir]; cbn [runOp].
    + contradiction.
    + destruct (Hstart eq_refl) as [H | H]; destruct Hstatus as [H' | H']; congruence.
    + eexists. split; [reflexivity|]. unfold pauseGame.
      destruct Hstatus as [-> | ->]; cbn; repeat split; auto.
    + eexists. split; [reflexivity|]. unfold handleDirectionChange.
      destruct (isOpposite newDir (direction (gameState app)));
        cbn [gameState storageCalls randomPos]; repeat split; exact Hstatus.
Qed.

Lemma handleKeyDown_never_restarts_witness :
  exists app',
    handleKeyDown scriptedDraws 0 " " sampleGame = Some app' /\
    snake (gameState app') = snake (gameState sampleGame) /\
    food (gameState app') = food (gameState sampleGame) /\
    score (gameState app') = score (gameState sampleGame) /\
    speed (gameState app') = speed (gameState sampleGame) /\
    highScore (gameState app') = highScore (gameState sampleGame) /\
    direction (gameState app') = direction (gameState sampleGame) /\
    storageCalls app' = storageCalls sampleGame /\
    randomPos app' = randomPos sampleGame /\
    (status (gameState app') = PLAYING \/ status (gameState app') = PAUSED).
Proof.
  apply (handleKeyDown_never_restarts scriptedDraws 0 " " sampleGame).
  right. reflexivity.
Defined.

(** X22. [handleTouchEnd] after a touch start: it calls back exactly when
    the touch moved 30 pixels or more along some axis; the heading it passes
    points along the axis of the larger move, in the sense of that move
    (the vertical axis on a tie); the swipe traced backwards gives the
    opposite heading; and the stored start is cleared by a swipe that calls
    back and kept by one that does not. *)
Theorem handleTouchEnd_swipe (start finish : TouchPoint) :
  (fst (handleTouchEnd (Some start) finish) = None <->
   Z.abs (tx finish - tx start) < 30 /\ Z.abs (ty finish - ty start) < 30) /\
  (forall dir,
     fst (handleTouchEnd (Some start) finish) = Some dir ->
     x (stepHead (mkCoordinate 0 0) dir) * (tx finish - tx start)
     + y (stepHead (mkCoordinate 0 0) dir) * (ty finish - ty start)
     = Z.max (Z.abs (tx finish - tx start)) (Z.abs (ty finish - ty start)) /\
     (Z.abs (tx finish - tx start) = Z.abs (ty finish - ty start) ->
      dir = UP \/ dir = DOWN) /\
     fst (handleTouchEnd (Some finish) start) = Some (opposite dir) /\
     snd (handleTouchEnd (Some start) finish) = None) /\
  (fst (handleTouchEnd (Some start) finish) = None ->
   snd (handleTouchEnd (Some start) finish) = Some start).
Proof.
  unfold handleTouchEnd. cbv zeta.
  replace (tx start - tx finish) with (- (tx finish - tx start)) by lia.
  replace (ty start - ty finish) with (- (ty finish - ty start)) by lia.
  generalize (tx finish - tx start) (ty finish - ty start). intros dx dy.
  rewrite !Z.abs_opp.
  destruct (Z.ltb_spec (Z.abs dx) 30) as [Hx | Hx];
    destruct (Z.ltb_spec (Z.abs dy) 30) as [Hy | Hy]; cbn [andb];
    try (destruct (Z.gtb_spec (Z.abs dx) (Z.abs dy)) as [Hd | Hd]);
    try (destruct (Z.gtb_spec dx 0) as [Hsx | Hsx]);
    try (destruct (Z.gtb_spec dy 0) as [Hsy | Hsy]);
    try (destruct (Z.gtb_spec (- dx) 0) as [Hnx | Hnx]);
    try (destruct (Z.gtb_spec (- dy) 0) as [Hny | Hny]);
    cbn [fst snd];
    (split; [split; [intros H; try discriminate H; lia | intros H; try reflexivity; lia]|]);
    (split; [intros dir H; try discriminate H; injection H as <-;
             cbn [stepHead opposite x y];
             repeat split; try reflexivity; try lia; try (intros; lia);
             try (left; reflexivity); try (right; reflexivity)
            | intros H; try reflexivity; discriminate H]).
Qed.

Lemma handleTouchEnd_swipe_witness :
  fst (handleTouchEnd (Some (mkTouchPoint 100 200)) (mkTouchPoint 40 230)) = Some LEFT /\
  fst (handleTouchEnd (Some (mkTouchPoint 40 230)) (mkTouchPoint 100 200)) = Some RIGHT /\
  snd (handleTouchEnd (Some (mkTouchPoint 100 200)) (mkTouchPoint 40 230)) = None.
Proof.
  split; [reflexivity|].
  destruct (proj1 (proj2 (handleTouchEnd_swipe (mkTouchPoint 100 200)
                            (mkTouchPoint 40 230))) LEFT eq_refl)
    as [_ [_ [Hback Hclear]]].
  split; [exact Hback | exact Hclear].
Defined.

(** A swipe calls back unless it is shorter than 30 pixels on both axes. *)
Lemma handleTouchEnd_swipe_short (start finish : TouchPoint) :
  (Z.abs (tx finish - tx start) < 30 /\ Z.abs (ty finish - ty start) < 30 ->
   fst (handleTouchEnd (Some start) finish) = None) /\
  (fst (handleTouchEnd (Some start) finish) = None ->
   Z.abs (tx finish - tx start) < 30 /\ Z.abs (ty finish - ty start) < 30).
Proof.
  unfold handleTouchEnd. cbv zeta.
  destruct (Z.ltb_spec (Z.abs (tx finish - tx start)) 30) as [Hx | Hx];
    destruct (Z.ltb_spec (Z.abs (ty finish - ty start)) 30) as [Hy | Hy]; cbn [andb];
    try (destruct (Z.abs (tx finish - tx start) >? Z.abs (ty finish - ty start)));
    cbn [fst]; split; intros H; try reflexivity; try discriminate H; lia.
Qed.

(** [handleDirectionChange] touches the pending heading only. *)
Lemma handleDirectionChange_frame (newDir : Direction) (app : App) :
  gameState (handleDirectionChange newDir app) = gameState app /\
  storageCalls (handleDirectionChange newDir app) = storageCalls app /\
  randomPos (handleDirectionChange newDir app) = randomPos app.
Proof.
  unfold handleDirectionChange.
  destruct (isOpposite newDir (direction (gameState app))); repeat split.
Qed.

(** X23. A swipe on the board reaches the game only through the direction
    buffer: it never changes the game state, the storage or the random
    source; a swipe shorter than 30 pixels on both axes, or one whose heading
    reverses the current heading, changes nothing at all; any other swipe
    makes its heading the pending one; and the component stays among its
    reachable states. *)
Theorem swipe_effect (random : nat -> Z) (start finish : TouchPoint) (app : App) :
  gameState (swipe start finish app) = gameState app /\
  storageCalls (swipe start finish app) = storageCalls app /\
  randomPos (swipe start finish app) = randomPos app /\
  (Z.abs (tx finish - tx start) < 30 /\ Z.abs (ty finish - ty start) < 30 ->
   swipe start finish app = app) /\
  (fst (handleTouchEnd (Some start) finish)
     = Some (opposite (direction (gameState app))) ->
   swipe start finish app = app) /\
  (forall dir,
     fst (handleTouchEnd (Some start) finish) = Some dir ->
     dir <> opposite (direction (gameState app)) ->
     nextDirection (swipe start finish app) = dir) /\
  (reachable random app -> reachable random (swipe start finish app)).
Proof.
  unfold swipe, handleTouchStart.
  pose proof (proj1 (handleTouchEnd_swipe_short start finish)) as Hshort.
  destruct (fst (handleTouchEnd (Some start) finish)) as [dir|] eqn:Hdir.
  - pose proof (handleDirectionChange_frame dir app) as [Hgs [Hst Hrp]].
    split; [exact Hgs|]. split; [exact Hst|]. split; [exact Hrp|].
    split; [intros H; apply Hshort in H; discriminate H|].
    split.
    + intros H. injection H as ->. unfold handleDirectionChange.
      rewrite (proj2 (isOpposite_opposite _ _) eq_refl). reflexivity.
    + split.
      * intros d H Hd. injection H as <-. unfold handleDirectionChange.
        destruct (isOpposite dir (direction (gameState app))) eqn:E; [|reflexivity].
        apply isOpposite_opposite in E. contradiction.
      * intros Hreach.
        apply (reachable_step random app 0 (OpDirectionChange dir) _ Hreach).
        reflexivity.
  - repeat split; try reflexivity; try discriminate; auto.
Qed.

Lemma swipe_effect_witness :
  nextDirection (swipe (mkTouchPoint 100 200) (mkTouchPoint 40 230) straightGame)
  = LEFT.
Proof.
  apply (proj1 (proj2 (proj2 (proj2 (proj2 (proj2
           (swipe_effect (constantDraws 3) (mkTouchPoint 100 200)
              (mkTouchPoint 40 230) straightGame))))))).
  - reflexivity.
  - simpl. discriminate.
Defined.

(** * Eating onto the tail *)





(** * Eating the last free cell *)

Lemma inGrid_gridCells (c : Coordinate) : inGrid c -> In c gridCells.
Proof.
  intros [[Hx0 Hx1] [Hy0 Hy1]]. unfold gridCells, GRID_SIZE in *.
  apply in_flat_map. exists (Z.to_nat (x c)). split.
  - apply in_seq. lia.
  - apply in_map_iff. exists (Z.to_nat (y c)). split.
    + destruct c as [cx cy]. cbn [x y] in *. rewrite !Z2Nat.id by lia. reflexivity.
    + apply in_seq. lia.
Qed.

Lemma tourCells_inGrid : Forall inGrid tourCells.
Proof.
  assert (H : forallb (fun c => negb (hitsWall c)) tourCells = true)
    by (vm_compute; reflexivity).
  rewrite forallb_forall in H. apply Forall_forall. intros c Hc.
  apply hitsWall_false. specialize (H c Hc).
  destruct (hitsWall c); [discriminate H | reflexivity].
Qed.

(** The draws of the tour are draws [Math.floor(Math.random() * GRID_SIZE)]
    can give. *)
Lemma tourDraws_range (n : nat) : 0 <= tourDraws n < GRID_SIZE.
Proof.
  assert (Hcell : inGrid (nth (Nat.div2 n) tourCells (mkCoordinate 0 0))).
  { destruct (nth_in_or_default (Nat.div2 n) tourCells (mkCoordinate 0 0))
      as [Hin | ->].
    - pose proof tourCells_inGrid as H. rewrite Forall_forall in H. apply H, Hin.
    - unfold inGrid, GRID_SIZE. cbn. lia. }
  unfold tourDraws. cbv zeta. destruct Hcell as [Hx Hy].
  destruct (Nat.even n); assumption.
Qed.

Lemma fullGridGame_reachable : reachable tourDraws fullGridGame.
Proof.
  apply (runOps_reachable tourDraws tourRun (initialApp None)).
  - apply reachable_init. discriminate.
  - vm_compute. reflexivity.
Qed.

Lemma pair_eq_inv {A B : Type} (a a' : A) (b b' : B) :
  (a, b) = (a', b') -> a = a' /\ b = b'.
Proof.
  intros H. split; [exact (f_equal fst H) | exact (f_equal snd H)].
Qed.

(** What the game along the tour has come to: 399 segments, the head below
    the last free cell, the food on it, and every cell of the grid under the
    body once the food is eaten. *)
Lemma fullGridGame_facts :
  (status (gameState fullGridGame), score (gameState fullGridGame),
   List.length (snake (gameState fullGridGame)), newHeadOf fullGridGame,
   food (gameState fullGridGame),
   isAtCoordinate (mkCoordinate 10 13) (snake (gameState fullGridGame)),
   forallb (fun c => isAtCoordinate c
                       (mkCoordinate 10 13 :: snake (gameState fullGridGame)))
           gridCells)
  = (PLAYING, 396, 399%nat, Some (mkCoordinate 10 13), mkCoordinate 10 13,
     false, true).
Proof. vm_compute. reflexivity. Qed.

(** The claim C6 fails at [fullGridGame], a state the component reaches
    (by eating 396 times along the tour): the game is PLAYING, the new head
    cell is the cell of the food, on the grid and off the body, so no
    collision occurs; but the grown body covers every cell of the grid, no
    cell is left for the new food, and for every random source within the
    grid and every fuel the tick does not return. *)
Lemma tick_eats_counterexample :
  reachable tourDraws fullGridGame /\
  (forall n, 0 <= tourDraws n < GRID_SIZE) /\
  status (gameState fullGridGame) = PLAYING /\
  score (gameState fullGridGame) = 396 /\
  List.length (snake (gameState fullGridGame)) = 399%nat /\
  newHeadOf fullGridGame = Some (mkCoordinate 10 13) /\
  food (gameState fullGridGame) = mkCoordinate 10 13 /\
  inGrid (mkCoordinate 10 13) /\
  ~ In (mkCoordinate 10 13) (snake (gameState fullGridGame)) /\
  (forall c, inGrid c ->
             In c (mkCoordinate 10 13 :: snake (gameState fullGridGame))) /\
  (forall random fuel,
     (forall n, 0 <= random n < GRID_SIZE) ->
     tick random fuel fullGridGame = None).
Proof.
  pose proof fullGridGame_facts as Hfacts.
  apply pair_eq_inv in Hfacts. destruct Hfacts as [Hfacts Hcover].
  apply pair_eq_inv in Hfacts. destruct Hfacts as [Hfacts Hoff].
  apply pair_eq_inv in Hfacts. destruct Hfacts as [Hfacts Hfood].
  apply pair_eq_inv in Hfacts. destruct Hfacts as [Hfacts Hnew].
  apply pair_eq_inv in Hfacts. destruct Hfacts as [Hfacts Hlen].
  apply pair_eq_inv in Hfacts. destruct Hfacts as [Hstatus Hscore].
  assert (Hgrid : inGrid (mkCoordinate 10 13))
    by (unfold inGrid, GRID_SIZE; cbn; lia).
  apply isAtCoordinate_not_In in Hoff.
  assert (Hall : forall c, inGrid c ->
                 In c (mkCoordinate 10 13 :: snake (gameState fullGridGame))).
  { intros c Hc. rewrite forallb_forall in Hcover.
    apply isAtCoordinate_In, Hcover, inGrid_gridCells, Hc. }
  split; [exact fullGridGame_reachable|].
  split; [exact tourDraws_range|].
  repeat (split; [assumption|]).
  intros random fuel Hrange.
  apply (tick_eats_diverges random fullGridGame (mkCoordinate 10 13)
           Hstatus Hnew (eq_sym Hfood) Hgrid Hoff).
  intros pos j. apply Hall. unfold inGrid, drawnCell. cbn [x y].
  split; apply Hrange.
Qed.
